(** * Solution installer: environment-file merge, repository detection,
      container cleanup and deployment strategy

    A shallow embedding of [nodejs/src/services/solutionInstall.js].

    - JavaScript strings are sequences of UTF-16 code units ([list N]).
    - The plain objects [rootVars], [localVars] and [mergedVars] are modelled
      with their own string-keyed properties in creation order, together with
      the enumeration order of [Object.keys] / [Object.entries].
    - The asynchronous functions are written in a state-and-exception monad
      over a [World]: the text files of the file system, the console, and the
      list of commands handed to [spawn].
    - The shell, [path.join], the error reporter and the solution registry are
      not part of the repository: they are fields of the [Platform] class. *)

From Stdlib Require Import String Ascii ZArith NArith List Lia.
From stdpp Require Import gmap list pretty sorting.
Import ListNotations.

Local Open Scope N_scope.
Local Open Scope list_scope.

(* ===================================================================== *)
(** ** JavaScript strings *)
(* ===================================================================== *)

Definition jsstring : Type := list N.

(** ASCII literal to code units. *)
Definition js (s : string) : jsstring :=
  map N_of_ascii (list_ascii_of_string s).

(** Code units that [String.prototype.trim] strips: WhiteSpace and
    LineTerminator of ECMAScript. *)
Definition is_ws (c : N) : bool :=
  (c =? 9) || (c =? 10) || (c =? 11) || (c =? 12) || (c =? 13) || (c =? 32)
  || (c =? 160) || (c =? 5760)
  || ((8192 <=? c) && (c <=? 8202))
  || (c =? 8232) || (c =? 8233) || (c =? 8239) || (c =? 8287)
  || (c =? 12288) || (c =? 65279).

Fixpoint trimStart (s : jsstring) : jsstring :=
  match s with
  | c :: s' => if is_ws c then trimStart s' else s
  | [] => []
  end.

Definition trimEnd (s : jsstring) : jsstring := rev (trimStart (rev s)).

Definition trim (s : jsstring) : jsstring := trimEnd (trimStart s).

(** [s.split(c)] for a one-character separator; never the empty array. *)
Fixpoint split_on (c : N) (s : jsstring) : list jsstring :=
  match s with
  | [] => [[]]
  | x :: s' =>
      if x =? c then [] :: split_on c s'
      else match split_on c s' with
           | p :: ps => (x :: p) :: ps
           | [] => [[x]]
           end
  end.

(** [parts.join(sep)]. *)
Fixpoint join (sep : jsstring) (parts : list jsstring) : jsstring :=
  match parts with
  | [] => []
  | [p] => p
  | p :: ps => p ++ sep ++ join sep ps
  end.

Definition startsWith_char (s : jsstring) (c : N) : bool :=
  match s with
  | x :: _ => x =? c
  | [] => false
  end.

Definition includes_char (s : jsstring) (c : N) : bool :=
  existsb (N.eqb c) s.

Definition is_empty (s : jsstring) : bool :=
  match s with [] => true | _ => false end.

Definition ch_newline : N := 10.
Definition ch_space : N := 32.
Definition ch_hash : N := 35.
Definition ch_equals : N := 61.

(* ===================================================================== *)
(** ** Plain objects with string values *)
(* ===================================================================== *)

(** Own properties in creation order; keys are unique. *)
Abbreviation obj := (list (jsstring * jsstring)).

Fixpoint own_get (o : obj) (k : jsstring) : option jsstring :=
  match o with
  | [] => None
  | (k', v) :: o' => if bool_decide (k' = k) then Some v else own_get o' k
  end.

Definition has_own (o : obj) (k : jsstring) : bool :=
  match own_get o k with Some _ => true | None => false end.

Fixpoint own_update (k v : jsstring) (o : obj) : obj :=
  match o with
  | [] => []
  | (k', v') :: o' =>
      if bool_decide (k' = k) then (k', v) :: o'
      else (k', v') :: own_update k v o'
  end.

(** [o[k] = v] with [v] a string.  Assigning a string to [__proto__] goes to
    the setter inherited from [Object.prototype], which ignores values that
    are neither objects nor null: no own property is created. *)
Definition obj_set (k v : jsstring) (o : obj) : obj :=
  if bool_decide (k = js "__proto__") then o
  else if has_own o k then own_update k v o
  else o ++ [(k, v)].

(** [o[k]] for a key that [Object.keys] produced; a missing property reads
    as [undefined], which a template literal prints as "undefined". *)
Definition obj_read (o : obj) (k : jsstring) : jsstring :=
  match own_get o k with Some v => v | None => js "undefined" end.

Definition digit_value (c : N) : option N :=
  if (48 <=? c) && (c <=? 57) then Some (c - 48) else None.

Fixpoint digits_value (acc : N) (s : jsstring) : option N :=
  match s with
  | [] => Some acc
  | c :: s' =>
      match digit_value c with
      | Some d => digits_value (acc * 10 + d) s'
      | None => None
      end
  end.

(** A property key is an array index when it is the canonical decimal
    numeral of an integer in [0, 2^32 - 2]. *)
Definition array_index (k : jsstring) : option N :=
  match k with
  | [] => None
  | c :: rest =>
      if (c =? 48) && negb (is_empty rest) then None
      else match digits_value 0 k with
           | Some n => if n <? 4294967295 then Some n else None
           | None => None
           end
  end.

Definition is_index (e : jsstring * jsstring) : bool :=
  match array_index (fst e) with Some _ => true | None => false end.

Definition index_of (e : jsstring * jsstring) : N :=
  match array_index (fst e) with Some n => n | None => 0 end.

Fixpoint insert_by_index (x : jsstring * jsstring) (l : obj) : obj :=
  match l with
  | [] => [x]
  | y :: l' =>
      if index_of x <=? index_of y then x :: l
      else y :: insert_by_index x l'
  end.

Definition sort_by_index (l : obj) : obj := foldr insert_by_index [] l.

(** [Object.entries(o)]: array-index keys in ascending numeric order, then
    the other keys in creation order. *)
Definition Object_entries (o : obj) : obj :=
  sort_by_index (filter (fun e => is_index e = true) o)
  ++ filter (fun e => is_index e = false) o.

Definition Object_keys (o : obj) : list jsstring := (Object_entries o).*1.

(* ===================================================================== *)
(** ** Errors, the world, and the monad of the asynchronous functions *)
(* ===================================================================== *)

Record Error : Type := mkError { err_name : jsstring; err_message : jsstring }.

(** [new Error(message)]. *)
Definition new_Error (message : jsstring) : Error :=
  {| err_name := js "Error"; err_message := message |}.

Definition new_TypeError (message : jsstring) : Error :=
  {| err_name := js "TypeError"; err_message := message |}.

Inductive Result (A : Type) : Type :=
  | Ok (a : A)
  | Throw (e : Error).
Arguments Ok {A} a.
Arguments Throw {A} e.

Inductive stream : Type := Stdout | Stderr.

Inductive LogArg : Type :=
  | LStr (s : jsstring)
  | LErr (e : Error).

(** Regular text files by literal path, the lines printed so far, and the
    command lines given to [spawn('sh', ['-c', command])] so far.  A file is
    the text [readFileSync(path, 'utf8')] returns; two path strings name the
    same file only when they are equal; directories, links and permissions
    are outside the model. *)
Record World : Type := mkWorld {
  files : gmap jsstring jsstring;
  console : list (stream * list LogArg);
  spawned : list jsstring
}.

Definition M (A : Type) : Type := World -> Result A * World.

Definition ret {A : Type} (a : A) : M A := fun w => (Ok a, w).

Definition bind {A B : Type} (m : M A) (k : A -> M B) : M B :=
  fun w =>
    match m w with
    | (Ok a, w') => k a w'
    | (Throw e, w') => (Throw e, w')
    end.

Definition throw {A : Type} (e : Error) : M A := fun w => (Throw e, w).

Definition try_catch {A : Type} (body : M A) (handler : Error -> M A) : M A :=
  fun w =>
    match body w with
    | (Ok a, w') => (Ok a, w')
    | (Throw e, w') => handler e w'
    end.

#[global] Instance M_ret : MRet M := @ret.
#[global] Instance M_bind : MBind M := fun A B k m => bind m k.

Definition with_files (fs : gmap jsstring jsstring) (w : World) : World :=
  {| files := fs; console := console w; spawned := spawned w |}.

Definition console_log (args : list LogArg) : M unit :=
  fun w => (Ok tt, {| files := files w;
                      console := console w ++ [(Stdout, args)];
                      spawned := spawned w |}).

Definition console_error (args : list LogArg) : M unit :=
  fun w => (Ok tt, {| files := files w;
                      console := console w ++ [(Stderr, args)];
                      spawned := spawned w |}).

Definition existsSync (p : jsstring) : M bool :=
  fun w => (Ok (bool_decide (is_Some (files w !! p))), w).

Definition readFileSync (p : jsstring) : M jsstring :=
  fun w =>
    match files w !! p with
    | Some content => (Ok content, w)
    | None =>
        (Throw (new_Error (js "ENOENT: no such file or directory, open '"
                            ++ p ++ js "'")), w)
    end.

Definition writeFileSync (p content : jsstring) : M unit :=
  fun w => (Ok tt, with_files (<[p := content]> (files w)) w).

(* ===================================================================== *)
(** ** Values read from the solution registry *)
(* ===================================================================== *)

Inductive jsval : Type :=
  | VUndefined
  | VString (s : jsstring)
  | VNumber (n : N).

#[global] Instance jsval_eq_dec : EqDecision jsval.
Proof. solve_decision. Defined.

(** [`${v}`] *)
Definition tpl (v : jsval) : jsstring :=
  match v with
  | VUndefined => js "undefined"
  | VString s => s
  | VNumber n => js (pretty n)
  end.

Definition truthy (v : jsval) : bool :=
  match v with
  | VUndefined => false
  | VString s => negb (is_empty s)
  | VNumber n => negb (n =? 0)
  end.

Record SolutionConfig : Type := mkConfig {
  repoUrl : jsstring;
  branchName : jsstring;
  repoName : jsstring;
  installType : jsstring;
  containerName : jsstring;
  imageName : jsstring;
  port : N;
  additionalPorts : option (list N);
  envFile : option jsstring
}.

(** What [SOLUTION_CONFIGS[solutionType]] can evaluate to when it is not
    [undefined]: a configuration of the registry, or a member inherited from
    [Object.prototype]. *)
Inductive ConfigValue : Type :=
  | ConfigObj (c : SolutionConfig)
  | ProtoMember (name : jsstring).

Definition opt_string (o : option jsstring) : jsval :=
  match o with Some s => VString s | None => VUndefined end.

Definition field (f : SolutionConfig -> jsval) (config : ConfigValue) : jsval :=
  match config with
  | ConfigObj c => f c
  | ProtoMember _ => VUndefined
  end.

Definition cfg_repoUrl := field (fun c => VString (repoUrl c)).
Definition cfg_branchName := field (fun c => VString (branchName c)).
Definition cfg_repoName := field (fun c => VString (repoName c)).
Definition cfg_installType := field (fun c => VString (installType c)).
Definition cfg_containerName := field (fun c => VString (containerName c)).
Definition cfg_imageName := field (fun c => VString (imageName c)).
Definition cfg_port := field (fun c => VNumber (port c)).
Definition cfg_envFile := field (fun c => opt_string (envFile c)).

Definition cfg_additionalPorts (config : ConfigValue) : option (list N) :=
  match config with
  | ConfigObj c => additionalPorts c
  | ProtoMember _ => None
  end.

(** The names every ordinary object inherits from [Object.prototype]. *)
Definition object_prototype_members : list jsstring :=
  map js [ "constructor"; "__defineGetter__"; "__defineSetter__";
           "hasOwnProperty"; "__lookupGetter__"; "__lookupSetter__";
           "isPrototypeOf"; "propertyIsEnumerable"; "toString"; "valueOf";
           "__proto__"; "toLocaleString" ]%string.

(* ===================================================================== *)
(** ** The platform *)
(* ===================================================================== *)

(** How a child process ends: the 'close' event with its exit code ([None]
    when a signal ended it), or the 'error' event when it could not start.
    Every child ends; a command that hangs is outside the model. *)
Inductive ChildOutcome : Type :=
  | Exited (code : option Z)
  | SpawnFailed (error : Error).

(** - [path_join] is Node's [path.join] on two segments;
    - [external] is what [sh -c command] does for every command that
      [sh] below does not interpret itself: how the child ends and the files
      it leaves;
    - [handleError] is the reporter of [../utils/helper]: the lines it
      prints for an error and a context;
    - [SOLUTION_CONFIGS] holds the own properties of the object exported by
      [../config/solutionconfig]. *)
Class Platform : Type := {
  path_join : jsstring -> jsstring -> jsstring;
  external : jsstring -> World -> ChildOutcome * gmap jsstring jsstring;
  handleError : Error -> jsstring -> list (stream * list LogArg);
  SOLUTION_CONFIGS : gmap jsstring SolutionConfig
}.

(** Characters of a word the shell passes on unchanged. *)
Definition plain_char (c : N) : bool :=
  ((48 <=? c) && (c <=? 57)) || ((65 <=? c) && (c <=? 90))
  || ((97 <=? c) && (c <=? 122))
  || (c =? 45) || (c =? 46) || (c =? 47) || (c =? 95).

(** A file operand: non-empty, plain, and not read as an option. *)
Definition path_word (s : jsstring) : bool :=
  negb (is_empty s) && forallb plain_char s && negb (startsWith_char s 45).

Definition sh_cp (src dst : jsstring) (fs : gmap jsstring jsstring)
  : ChildOutcome * gmap jsstring jsstring :=
  if bool_decide (src = dst) then (Exited (Some 1%Z), fs)
  else match fs !! src with
       | Some content => (Exited (Some 0%Z), <[dst := content]> fs)
       | None => (Exited (Some 1%Z), fs)
       end.

Definition sh_rm_f (p : jsstring) (fs : gmap jsstring jsstring)
  : ChildOutcome * gmap jsstring jsstring :=
  (Exited (Some 0%Z), delete p fs).

(** [sh -c command].  [cp SRC DST] and [rm -f FILE] on plain operands act on
    the files as the utilities do; every other command line is the
    platform's. *)
Definition sh `{Platform} (command : jsstring) (w : World)
  : ChildOutcome * gmap jsstring jsstring :=
  match split_on ch_space command with
  | [c; a; b] =>
      if bool_decide (c = js "cp") && path_word a && path_word b
      then sh_cp a b (files w)
      else if bool_decide (c = js "rm") && bool_decide (a = js "-f")
              && path_word b
      then sh_rm_f b (files w)
      else external command w
  | _ => external command w
  end.

(* ===================================================================== *)
(** ** UTILITY FUNCTIONS *)
(* ===================================================================== *)

(** The two handlers of [runCommand]: 'close' resolves on code 0 and
    otherwise rejects with a new error naming the command; 'error' rejects
    with the error of the event. *)
Definition settle (command : jsstring) (outcome : ChildOutcome)
  : Result jsstring :=
  match outcome with
  | Exited code =>
      if bool_decide (code = Some 0%Z) then Ok (js "success")
      else Throw (new_Error (js "Command failed: " ++ command))
  | SpawnFailed error => Throw error
  end.

(** [await runCommand(command)] *)
Definition runCommand `{Platform} (command : jsstring) : M jsstring :=
  fun w =>
    let w1 := {| files := files w; console := console w;
                 spawned := spawned w ++ [command] |} in
    let '(outcome, fs) := sh command w1 in
    (settle command outcome, with_files fs w1).

(** The body of the [forEach] over the lines of an env file. *)
Definition env_line (vars : obj) (line : jsstring) : obj :=
  let trimmedLine := trim line in
  if negb (is_empty trimmedLine)
     && negb (startsWith_char trimmedLine ch_hash)
     && includes_char trimmedLine ch_equals
  then match split_on ch_equals trimmedLine with
       | key :: valueParts =>
           obj_set (trim key) (trim (join [ch_equals] valueParts)) vars
       | [] => vars
       end
  else vars.

Definition parse_env (content : jsstring) : obj :=
  fold_left env_line (split_on ch_newline content) [].

(** [if (fs.existsSync(p)) { ... fill vars from the file ... }] *)
Definition read_env (p : jsstring) : M obj :=
  present ← existsSync p;
  if (present : bool) then
    content ← readFileSync p;
    mret (parse_env content)
  else mret [].

(** [rootVars.hasOwnProperty(key)]: the method is looked up on [rootVars]
    first, where an own property of that name is a string, not a function. *)
Definition call_hasOwnProperty (rootVars : obj) (key : jsstring) : M bool :=
  if has_own rootVars (js "hasOwnProperty")
  then throw (new_TypeError (js "rootVars.hasOwnProperty is not a function"))
  else mret (has_own rootVars key).

Definition copy_root (rootVars : obj) : obj :=
  fold_left (fun mergedVars key => obj_set key (obj_read rootVars key) mergedVars)
            (Object_keys rootVars) [].

Fixpoint add_local_only (rootVars localVars : obj) (keys : list jsstring)
  (mergedVars : obj) : M obj :=
  match keys with
  | [] => mret mergedVars
  | key :: rest =>
      inRoot ← call_hasOwnProperty rootVars key;
      add_local_only rootVars localVars rest
        (if negb inRoot then obj_set key (obj_read localVars key) mergedVars
         else mergedVars)
  end.

(** [`${key}=${value}`] joined by newline. *)
Definition env_content (mergedVars : obj) : jsstring :=
  join [ch_newline]
       (map (fun '(key, value) => key ++ [ch_equals] ++ value)
            (Object_entries mergedVars)).

Definition mergeEnvironmentFiles (rootEnvPath localEnvPath outputPath : jsstring)
  : M obj :=
  try_catch
    (rootVars ← read_env rootEnvPath;
     localVars ← read_env localEnvPath;
     mergedVars ← add_local_only rootVars localVars (Object_keys localVars)
                     (copy_root rootVars);
     writeFileSync outputPath (env_content mergedVars);;
     console_log [LStr ([9989] ++ js " Merged "
                        ++ js (pretty (N.of_nat (length (Object_keys mergedVars))))
                        ++ js " environment variables (root values used for common variables)")];;
     mret mergedVars)
    (fun error =>
       console_error [LStr ([10060] ++ js " Error merging environment files:");
                      LErr error];;
       throw error).

Definition isDockerComposeAvailable `{Platform} : M bool :=
  try_catch
    (runCommand (js "docker-compose --version");; mret true)
    (fun _ =>
       try_catch
         (runCommand (js "docker compose version");; mret true)
         (fun _ => mret false)).

Definition ch_dquote : N := 34.

Definition installDockerCompose `{Platform} : M unit :=
  try_catch
    (console_log [LStr ([55357; 56550] ++ js " Installing Docker Compose...")];;
     runCommand (js "wget -O /usr/local/bin/docker-compose " ++ [ch_dquote]
                 ++ js "https://github.com/docker/compose/releases/download/v2.20.2/docker-compose-$(uname -s)-$(uname -m)"
                 ++ [ch_dquote]
                 ++ js " && chmod +x /usr/local/bin/docker-compose");;
     console_log [LStr ([9989] ++ js " Docker Compose installed successfully")])
    (fun _ =>
       console_log [LStr ([9888; 65039]
                          ++ js " Docker Compose installation failed, continuing with fallback...")]).

Record RepoStructure : Type := mkStructure {
  hasDockerCompose : bool;
  hasDockerfile : bool;
  composeFile : option jsstring
}.

Definition composeFiles : list jsstring :=
  map js ["docker-compose.yml"; "docker-compose.yaml"; "compose.yml";
          "compose.yaml"]%string.

(** The [for ... of] loop with its [break]. *)
Fixpoint check_compose `{Platform} (repoPath : jsstring)
  (candidates : list jsstring) (structure : RepoStructure) : M RepoStructure :=
  match candidates with
  | [] => mret structure
  | file :: rest =>
      present ← existsSync (path_join repoPath file);
      if (present : bool) then
        mret {| hasDockerCompose := true;
                hasDockerfile := hasDockerfile structure;
                composeFile := Some file |}
      else check_compose repoPath rest structure
  end.

(** Nothing in the [try] block throws on string arguments, so the [catch]
    (which returns the same [structure]) is never entered. *)
Definition detectRepoStructure `{Platform} (repoPath : jsstring)
  : M RepoStructure :=
  let structure := {| hasDockerCompose := false; hasDockerfile := false;
                      composeFile := None |} in
  structure ← check_compose repoPath composeFiles structure;
  present ← existsSync (path_join repoPath (js "Dockerfile"));
  if (present : bool) then
    mret {| hasDockerCompose := hasDockerCompose structure;
            hasDockerfile := true;
            composeFile := composeFile structure |}
  else mret structure.

Fixpoint stop_ports `{Platform} (ports : list N) : M unit :=
  match ports with
  | [] => mret tt
  | port :: rest =>
      runCommand (js "docker ps -q --filter " ++ [ch_dquote] ++ js "publish="
                  ++ tpl (VNumber port) ++ [ch_dquote]
                  ++ js " | xargs -r docker stop || true");;
      stop_ports rest
  end.

Definition cleanupExistingContainers `{Platform} (config : ConfigValue)
  : M unit :=
  try_catch
    (console_log [LStr ([55358; 56825] ++ js " Cleaning up existing containers...")];;
     runCommand (js "docker rm -f " ++ tpl (cfg_containerName config)
                 ++ js " || true");;
     match cfg_additionalPorts config with
     | Some ports => stop_ports ports
     | None => mret tt
     end;;
     console_log [LStr ([9989] ++ js " Existing containers cleaned up")])
    (fun error =>
       console_log [LStr ([9888; 65039] ++ js " Error cleaning up containers:");
                    LStr (err_message error)]).

Definition rootEnvPath : jsstring := js "/workspace/.env".
Definition networkName : jsstring := js "weam_app-network".

Definition installDockerService `{Platform} (config : ConfigValue)
  (repoPath : jsstring) : M unit :=
  console_log [LStr ([55357; 56371] ++ js " Installing Docker service...")];;
  (if truthy (cfg_envFile config) then
     runCommand (js "cp " ++ repoPath ++ js "/" ++ tpl (cfg_envFile config)
                 ++ js " " ++ repoPath ++ js "/.env");;
     mret tt
   else mret tt);;
  let localEnvPath := repoPath ++ js "/.env" in
  let tempEnvPath := repoPath ++ js "/.env.temp" in
  mergeEnvironmentFiles rootEnvPath localEnvPath tempEnvPath;;
  runCommand (js "cp " ++ tempEnvPath ++ js " " ++ localEnvPath);;
  console_log [LStr ([55357; 56616] ++ js " Building Docker image...")];;
  runCommand (js "docker build -t " ++ tpl (cfg_imageName config) ++ js " "
              ++ repoPath);;
  console_log [LStr ([55357; 56960] ++ js " Starting container...")];;
  runCommand (js "docker run -d --name " ++ tpl (cfg_containerName config)
              ++ js " --network " ++ networkName
              ++ js " -p " ++ tpl (cfg_port config) ++ js ":"
              ++ tpl (cfg_port config) ++ js " " ++ tpl (cfg_imageName config));;
  runCommand (js "cp " ++ repoPath ++ js "/" ++ tpl (cfg_envFile config)
              ++ js " " ++ repoPath ++ js "/.env");;
  runCommand (js "rm -f " ++ tempEnvPath);;
  mret tt.

(** [find ${repoPath} -name ".env.example" -exec sh -c
     'cp "$1" "$(dirname "$1")/.env"' _ {} \;] *)
Definition reset_env_files_command (repoPath : jsstring) : jsstring :=
  js "find " ++ repoPath ++ js " -name " ++ [ch_dquote] ++ js ".env.example"
  ++ [ch_dquote] ++ js " -exec sh -c 'cp " ++ [ch_dquote] ++ js "$1"
  ++ [ch_dquote] ++ js " " ++ [ch_dquote] ++ js "$(dirname " ++ [ch_dquote]
  ++ js "$1" ++ [ch_dquote] ++ js ")/.env" ++ [ch_dquote] ++ js "' _ {} \;".

Definition no_docker_configuration : Error :=
  new_Error (js "No Docker configuration found in repository").

Definition installDockerComposeService `{Platform} (config : ConfigValue)
  (repoPath : jsstring) : M unit :=
  console_log [LStr ([55357; 56371] ++ js " Installing Docker Compose service...")];;
  runCommand (reset_env_files_command repoPath);;
  let localEnvPath := repoPath ++ js "/.env" in
  let tempEnvPath := repoPath ++ js "/.env.temp" in
  mergeEnvironmentFiles rootEnvPath localEnvPath tempEnvPath;;
  repoStructure ← detectRepoStructure repoPath;
  if hasDockerCompose repoStructure then
    console_log [LStr ([55357; 56550] ++ js " Using Docker Compose ("
                       ++ tpl (opt_string (composeFile repoStructure))
                       ++ js ")...")];;
    isComposeAvailable ← isDockerComposeAvailable;
    (if negb isComposeAvailable then installDockerCompose else mret tt);;
    runCommand (js "cp " ++ tempEnvPath ++ js " " ++ localEnvPath);;
    runCommand (js "cd " ++ repoPath ++ js " && docker-compose up -d --build");;
    runCommand (reset_env_files_command repoPath);;
    runCommand (js "rm -f " ++ tempEnvPath);;
    mret tt
  else if hasDockerfile repoStructure then
    console_log [LStr ([55357; 56550] ++ js " Using Dockerfile...")];;
    installDockerService config repoPath
  else throw no_docker_configuration.

(* ===================================================================== *)
(** ** MAIN INSTALLATION FUNCTION *)
(* ===================================================================== *)

(** [req.body?.solutionType]: the body may be absent, and so may the
    property; a present property is a string. *)
Record Request : Type := mkRequest { body : option (option jsstring) }.

Definition req_solutionType (req : Request) : option jsstring :=
  match body req with
  | Some st => st
  | None => None
  end.

Record DeploymentResult : Type := mkResult {
  success : bool;
  result_port : jsval;
  result_solutionType : jsstring
}.

(** [SOLUTION_CONFIGS[solutionType]]: an own property of the registry, or
    else what the registry object inherits from [Object.prototype]. *)
Definition registry_get `{Platform} (solutionType : jsstring)
  : option ConfigValue :=
  match SOLUTION_CONFIGS !! solutionType with
  | Some c => Some (ConfigObj c)
  | None =>
      if bool_decide (solutionType ∈ object_prototype_members)
      then Some (ProtoMember solutionType)
      else None
  end.

Definition report `{Platform} (error : Error) (context : jsstring) : M unit :=
  fun w => (Ok tt, {| files := files w;
                      console := console w ++ handleError error context;
                      spawned := spawned w |}).

Definition installWithProgress `{Platform} (req : Request)
  : M DeploymentResult :=
  try_catch
    (match req_solutionType req with
     | None => throw (new_Error (js "Solution type is required"))
     | Some solutionType =>
         if is_empty solutionType
         then throw (new_Error (js "Solution type is required"))
         else
           match registry_get solutionType with
           | None =>
               throw (new_Error (js "Unknown solution type: " ++ solutionType))
           | Some config =>
               console_log [LStr ([9989] ++ js " Installing solution: "
                                  ++ solutionType ++ js " ("
                                  ++ tpl (cfg_installType config) ++ js ")")];;
               let repoPath := js "/workspace/" ++ tpl (cfg_repoName config) in
               console_log [LStr ([55358; 56825]
                                  ++ js " Cleaning up existing repository...")];;
               runCommand (js "rm -rf " ++ repoPath);;
               console_log [LStr ([55357; 56549] ++ js " Cloning repository...")];;
               runCommand (js "git clone -b " ++ tpl (cfg_branchName config)
                           ++ js " " ++ tpl (cfg_repoUrl config) ++ js " "
                           ++ repoPath);;
               cleanupExistingContainers config;;
               (if bool_decide (cfg_installType config = VString (js "docker"))
                then installDockerService config repoPath
                else if bool_decide (cfg_installType config
                                     = VString (js "docker-compose"))
                then installDockerComposeService config repoPath
                else throw (new_Error (js "Unsupported installation type: "
                                       ++ tpl (cfg_installType config))));;
               console_log [LStr ([9989]
                                  ++ js " Installation completed! Solution running at http://localhost:"
                                  ++ tpl (cfg_port config))];;
               mret {| success := true; result_port := cfg_port config;
                       result_solutionType := solutionType |}
           end
     end)
    (fun error =>
       console_error [LStr ([10060] ++ js " Installation failed: "
                            ++ err_message error)];;
       report error (js "Error - solutionInstallWithProgress");;
       throw error).

(* ===================================================================== *)
(** ** A concrete platform, for running the model *)
(* ===================================================================== *)

Definition sample_config : SolutionConfig :=
  {| repoUrl := js "https://example.org/demo.git";
     branchName := js "main";
     repoName := js "demo";
     installType := js "docker";
     containerName := js "demo-container";
     imageName := js "demo-image";
     port := 3000;
     additionalPorts := Some [3001; 3002];
     envFile := Some (js ".env.example") |}.

(** Every command the model does not interpret ends with code 0 and leaves
    the files alone; paths are joined with a slash; the reporter only prints;
    the registry has one entry. *)
Definition quiet_platform : Platform :=
  {| path_join := fun dir file => dir ++ js "/" ++ file;
     external := fun _ w => (Exited (Some 0%Z), files w);
     handleError := fun error context => [(Stderr, [LStr context; LErr error])];
     SOLUTION_CONFIGS := {[ js "demo" := sample_config ]} |}.

(** The same platform with a shell on which every external command fails. *)
Definition failing_platform : Platform :=
  {| path_join := fun dir file => dir ++ js "/" ++ file;
     external := fun _ w => (Exited (Some 1%Z), files w);
     handleError := fun _ _ => [];
     SOLUTION_CONFIGS := {[ js "demo" := sample_config ]} |}.

Definition empty_world : World :=
  {| files := ∅; console := []; spawned := [] |}.

Definition world_of (l : list (jsstring * jsstring)) : World :=
  {| files := list_to_map l; console := []; spawned := [] |}.

(* ===================================================================== *)
(** ** Vocabulary of the statements *)
(* ===================================================================== *)

(** The variables the merge takes from a path: those of the file there,
    none when there is no file. *)
Definition env_at (w : World) (p : jsstring) : obj :=
  match files w !! p with
  | Some content => parse_env content
  | None => []
  end.

(** [KEY=VALUE] lines joined by newline. *)
Definition env_lines (entries : obj) : jsstring :=
  join [ch_newline] (map (fun '(key, value) => key ++ [ch_equals] ++ value) entries).

(** The entries of [localVars] whose key [rootVars] does not have. *)
Definition local_only (rootVars localVars : obj) : obj :=
  filter (fun e => has_own rootVars (fst e) = false) (Object_entries localVars).

(** The merge output in the words of the specification: all root keys first,
    in root's order, then the local-only keys, in local's order. *)
Definition merge_as_specified (rootVars localVars : obj) : jsstring :=
  env_lines (Object_entries rootVars ++ local_only rootVars localVars).

(** An object as the parser builds it: unique keys, none of them
    [__proto__]. *)
Definition well_formed (o : obj) : Prop :=
  NoDup o.*1 /\ js "__proto__" ∉ o.*1.

(** The outcome of the child that [runCommand command] spawns in [w]. *)
Definition child_outcome `{Platform} (command : jsstring) (w : World)
  : ChildOutcome :=
  fst (sh command {| files := files w; console := console w;
                     spawned := spawned w ++ [command] |}).

(** [fs.existsSync(path.join(repoPath, file))] *)
Definition present `{Platform} (w : World) (repoPath file : jsstring) : Prop :=
  is_Some (files w !! path_join repoPath file).

(** The statements of [installDockerComposeService] up to the detection of
    the repository structure. *)
Definition compose_setup `{Platform} (repoPath : jsstring) : M RepoStructure :=
  console_log [LStr ([55357; 56371] ++ js " Installing Docker Compose service...")];;
  runCommand (reset_env_files_command repoPath);;
  mergeEnvironmentFiles rootEnvPath (repoPath ++ js "/.env")
                        (repoPath ++ js "/.env.temp");;
  detectRepoStructure repoPath.

(** The statements of its first branch, the compose path. *)
Definition compose_path `{Platform} (repoPath : jsstring)
  (repoStructure : RepoStructure) : M unit :=
  console_log [LStr ([55357; 56550] ++ js " Using Docker Compose ("
                     ++ tpl (opt_string (composeFile repoStructure))
                     ++ js ")...")];;
  isComposeAvailable ← isDockerComposeAvailable;
  (if negb isComposeAvailable then installDockerCompose else mret tt);;
  let localEnvPath := repoPath ++ js "/.env" in
  let tempEnvPath := repoPath ++ js "/.env.temp" in
  runCommand (js "cp " ++ tempEnvPath ++ js " " ++ localEnvPath);;
  runCommand (js "cd " ++ repoPath ++ js " && docker-compose up -d --build");;
  runCommand (reset_env_files_command repoPath);;
  runCommand (js "rm -f " ++ tempEnvPath);;
  mret tt.

(** Its second branch, the fallback to a single container. *)
Definition dockerfile_path `{Platform} (config : ConfigValue)
  (repoPath : jsstring) : M unit :=
  console_log [LStr ([55357; 56550] ++ js " Using Dockerfile...")];;
  installDockerService config repoPath.

(** The order of the array-index part of an enumeration. *)
Definition index_le (x y : jsstring * jsstring) : Prop := index_of x <= index_of y.

(** The body of the [forEach] over the keys of [localVars]. *)
Definition keep_local_only (r l : obj) (mergedVars : obj) (key : jsstring) : obj :=
  if negb (has_own r key) then obj_set key (obj_read l key) mergedVars
  else mergedVars.

(** The line [mergeEnvironmentFiles] prints on success. *)
Definition merged_log (m : obj) : stream * list LogArg :=
  (Stdout,
   [LStr ([9989] ++ js " Merged "
          ++ js (pretty (N.of_nat (length (Object_keys m))))
          ++ js " environment variables (root values used for common variables)")]).

(** No white space at the front. *)
Definition starts_clean (s : jsstring) : Prop :=
  match s with
  | [] => True
  | c :: _ => is_ws c = false
  end.

(** No white space at either end: what [trim] returns. *)
Definition trimmed (s : jsstring) : Prop :=
  starts_clean s /\ starts_clean (rev s).

(** Keys and values as the parser stores them. *)
Definition clean_key (k : jsstring) : Prop :=
  trimmed k /\ (ch_equals ∉ k) /\ (ch_newline ∉ k)
  /\ startsWith_char k ch_hash = false.

Definition clean_value (v : jsstring) : Prop :=
  trimmed v /\ (ch_newline ∉ v).

Definition clean_entry (e : jsstring * jsstring) : Prop :=
  clean_key (fst e) /\ clean_value (snd e).

(** [`${key}=${value}`] *)
Definition env_entry_line (e : jsstring * jsstring) : jsstring :=
  let '(key, value) := e in key ++ [ch_equals] ++ value.

(** [cp examplePath workingPath], as the shell model performs it. *)
Definition copy_example (examplePath workingPath : jsstring) (w : World) : World :=
  with_files (snd (sh_cp examplePath workingPath (files w))) w.

(** A configuration whose example-env file is the file the installer uses
    for its merged output. *)
Definition temp_as_example_config : SolutionConfig :=
  {| repoUrl := js "https://example.org/demo.git";
     branchName := js "main";
     repoName := js "demo";
     installType := js "docker";
     containerName := js "demo-container";
     imageName := js "demo-image";
     port := 3000;
     additionalPorts := None;
     envFile := Some (js ".env.temp") |}.

Definition temp_as_example_world : World :=
  world_of [(js "/workspace/.env", js "SECRET=42");
            (js "/workspace/demo/.env.temp", js "A=1")].

(** A fresh checkout of the sample solution next to a root env file. *)
Definition checkout_world : World :=
  world_of [(js "/workspace/.env", js "SECRET=42");
            (js "/workspace/demo/.env.example", js "A=1");
            (js "/workspace/demo/Dockerfile", js "FROM node")].

(** A checkout with a compose descriptor and a Dockerfile. *)
Definition compose_world : World :=
  world_of [(js "/workspace/demo/.env.example", js "A=1");
            (js "/workspace/demo/docker-compose.yml", js "services:");
            (js "/workspace/demo/Dockerfile", js "FROM node")].

(** A checkout with one compose descriptor, under its third name. *)
Definition third_name_world : World :=
  world_of [(js "/workspace/demo/compose.yml", js "services:")].

(** Scenario A of the specification: root [{A=1,B=2}], local [{B=,C=3}]. *)
Definition scenario_A_world : World :=
  world_of [(js "/workspace/.env", js "A=1" ++ [ch_newline] ++ js "B=2");
            (js "/workspace/demo/.env", js "B=" ++ [ch_newline] ++ js "C=3")].

(** A root file that defines a variable named [hasOwnProperty]. *)
Definition shadowing_world : World :=
  world_of [(js "/workspace/.env", js "hasOwnProperty=1");
            (js "/workspace/demo/.env", js "A=1")].

(** An example-env file with a comment line. *)
Definition commented_example : jsstring :=
  js "# defaults" ++ [ch_newline] ++ js "A=1".

Definition example_world : World :=
  world_of [(js "/workspace/demo/.env.example", commented_example)].

(** A root file with one variable and a local file whose only variable has
    an array-index name. *)
Definition index_key_world : World :=
  world_of [(js "/workspace/.env", js "A=1");
            (js "/workspace/demo/.env", js "1=x")].

(* ===================================================================== *)
(** ** Vocabulary of the further properties *)
(* ===================================================================== *)

(** The test of the [forEach] body: the line, once trimmed, is not empty,
    is not a comment and contains [=]. *)
Definition is_assignment_line (line : jsstring) : bool :=
  negb (is_empty (trim line))
  && negb (startsWith_char (trim line) ch_hash)
  && includes_char (trim line) ch_equals.

(** [docker ps -q --filter "publish=${port}" | xargs -r docker stop || true] *)
Definition stop_port_command (port : N) : jsstring :=
  js "docker ps -q --filter " ++ [ch_dquote] ++ js "publish="
  ++ tpl (VNumber port) ++ [ch_dquote]
  ++ js " | xargs -r docker stop || true".

(** [docker rm -f ${config.containerName} || true] *)
Definition remove_container_command (config : ConfigValue) : jsstring :=
  js "docker rm -f " ++ tpl (cfg_containerName config) ++ js " || true".

(** The ports the cleanup loop runs over. *)
Definition ports_of (config : ConfigValue) : list N :=
  match cfg_additionalPorts config with
  | Some ports => ports
  | None => []
  end.

(** The download command of [installDockerCompose]. *)
Definition install_compose_command : jsstring :=
  js "wget -O /usr/local/bin/docker-compose " ++ [ch_dquote]
  ++ js "https://github.com/docker/compose/releases/download/v2.20.2/docker-compose-$(uname -s)-$(uname -m)"
  ++ [ch_dquote]
  ++ js " && chmod +x /usr/local/bin/docker-compose".

(** [/workspace/${config.repoName}], and the two commands the orchestrator
    starts with, for an entry of the registry. *)
Definition checkout_path (c : SolutionConfig) : jsstring :=
  js "/workspace/" ++ repoName c.

Definition remove_checkout_command (c : SolutionConfig) : jsstring :=
  js "rm -rf " ++ checkout_path c.

Definition clone_command (c : SolutionConfig) : jsstring :=
  js "git clone -b " ++ branchName c ++ js " " ++ repoUrl c ++ js " "
  ++ checkout_path c.

(** [docker build -t ${config.imageName} ${repoPath}] *)
Definition build_command (c : SolutionConfig) (repoPath : jsstring) : jsstring :=
  js "docker build -t " ++ imageName c ++ js " " ++ repoPath.

(** The computation only adds to the list of spawned commands. *)
Definition appends_commands {A : Type} (m : M A) : Prop :=
  forall w, exists more, spawned (snd (m w)) = spawned w ++ more.

(** A configuration without example-env file, and a checkout for it that
    happens to hold a file named [undefined]. *)
Definition no_envFile_config : SolutionConfig :=
  {| repoUrl := js "https://example.org/demo.git";
     branchName := js "main";
     repoName := js "demo";
     installType := js "docker";
     containerName := js "demo-container";
     imageName := js "demo-image";
     port := 3000;
     additionalPorts := None;
     envFile := None |}.

Definition undefined_file_world : World :=
  world_of [(js "/workspace/demo/undefined", js "A=1")].

(** A registry whose only entry has an install type the orchestrator does
    not know. *)
Definition helm_config : SolutionConfig :=
  {| repoUrl := js "https://example.org/chart.git";
     branchName := js "main";
     repoName := js "chart";
     installType := js "helm";
     containerName := js "chart-container";
     imageName := js "chart-image";
     port := 8080;
     additionalPorts := None;
     envFile := None |}.

Definition helm_platform : Platform :=
  {| path_join := fun dir file => dir ++ js "/" ++ file;
     external := fun _ w => (Exited (Some 0%Z), files w);
     handleError := fun _ _ => [];
     SOLUTION_CONFIGS := {[ js "chart" := helm_config ]} |}.

(* ===================================================================== *)
(** ** The Ollama settings hook ([hooks/aiModal/useOllama.ts]) *)
(* ===================================================================== *)

(** The form values handed to [ollamaHealthCheck]. *)
Record OllamaPayload : Type := mkPayload {
  payload_baseUrl : option jsstring;
  payload_key : option jsstring
}.

(** [store.aiModal.selectedValue] *)
Record BotInfo : Type := mkBot {
  bot_value : jsval;
  bot_code : jsval;
  bot_id : jsval
}.

(** The [data] object sent with [MODULE_ACTIONS.OLLAMA_HEALTH]. *)
Record HealthRequest : Type := mkHealthRequest {
  request_baseUrl : jsstring;
  request_apiKey : option jsstring;
  request_title : jsval;
  request_code : jsval;
  request_id : jsval
}.

(** [response.data]: the value [true], an array of models, or a value that
    cannot be spread. *)
Inductive ResponseData (Model : Type) : Type :=
  | DataTrue
  | DataModels (models : list Model)
  | DataNotIterable.
Arguments DataTrue {Model}.
Arguments DataModels {Model} models.
Arguments DataNotIterable {Model}.

Record ApiResponse (Model : Type) : Type := mkResponse {
  response_message : jsval;
  response_data : ResponseData Model
}.
Arguments response_message {Model} _.
Arguments response_data {Model} _.

(** The calls the hook makes, in order. *)
Inductive HookCall (Model : Type) : Type :=
  | SetLoading (value : bool)
  | CommonApi (data : HealthRequest)
  | Toast (message : jsval)
  | DispatchAssignModelList (models : list Model).
Arguments SetLoading {Model} value.
Arguments CommonApi {Model} data.
Arguments Toast {Model} message.
Arguments DispatchAssignModelList {Model} models.

(** What one render of the hook closes over: the selected bot and the
    current list from the store, the API client, and the [TypeError] the
    engine raises when [response.data] cannot be spread. *)
Class HookClosure (Model : Type) : Type := {
  botinfo : BotInfo;
  assignmodalList : list Model;
  commonApi : HealthRequest -> Result (ApiResponse Model);
  not_iterable : Error
}.

(** [payload?.baseUrl || 'http://localhost:11434'] *)
Definition health_baseUrl (payload : option OllamaPayload) : jsstring :=
  match payload with
  | Some p =>
      match payload_baseUrl p with
      | Some url => if is_empty url then js "http://localhost:11434" else url
      | None => js "http://localhost:11434"
      end
  | None => js "http://localhost:11434"
  end.

(** [payload?.key] *)
Definition health_apiKey (payload : option OllamaPayload) : option jsstring :=
  match payload with
  | Some p => payload_key p
  | None => None
  end.

Definition health_request {Model : Type} `{HookClosure Model}
  (payload : option OllamaPayload) : HealthRequest :=
  {| request_baseUrl := health_baseUrl payload;
     request_apiKey := health_apiKey payload;
     request_title := bot_value botinfo;
     request_code := bot_code botinfo;
     request_id := bot_id botinfo |}.

(** The [try] block: its result and the calls it made. *)
Definition health_check_try {Model : Type} `{HookClosure Model}
  (payload : option OllamaPayload) : Result unit * list (HookCall Model) :=
  let calls := [SetLoading true] in
  let data := health_request payload in
  let calls := calls ++ [CommonApi data] in
  match commonApi data with
  | Throw e => (Throw e, calls)
  | Ok response =>
      let calls := calls ++ [Toast (response_message response)] in
      match response_data response with
      | DataTrue => (Ok tt, calls)
      | DataModels models =>
          (Ok tt,
           calls ++ [DispatchAssignModelList (assignmodalList ++ models)])
      | DataNotIterable => (Throw not_iterable, calls)
      end
  end.

(** [try { ... } finally { setLoading(false) }] *)
Definition ollamaHealthCheck {Model : Type} `{HookClosure Model}
  (payload : option OllamaPayload) : Result unit * list (HookCall Model) :=
  let '(result, calls) := health_check_try payload in
  (result, calls ++ [SetLoading false]).

Definition is_SetLoading {Model : Type} (c : HookCall Model) : bool :=
  match c with SetLoading _ => true | _ => false end.

Definition is_Dispatch {Model : Type} (c : HookCall Model) : bool :=
  match c with DispatchAssignModelList _ => true | _ => false end.

(** A closure whose API answers with two models, and one whose API fails. *)
Definition answering_closure : HookClosure jsstring :=
  {| botinfo := {| bot_value := VString (js "Ollama");
                   bot_code := VString (js "OLLAMA");
                   bot_id := VNumber 7 |};
     assignmodalList := [js "llama3"];
     commonApi := fun _ =>
       Ok {| response_message := VString (js "Connected");
             response_data := DataModels [js "mistral"; js "phi3"] |};
     not_iterable := new_TypeError (js "response.data is not iterable") |}.

Definition failing_closure : HookClosure jsstring :=
  {| botinfo := {| bot_value := VString (js "Ollama");
                   bot_code := VString (js "OLLAMA");
                   bot_id := VNumber 7 |};
     assignmodalList := [js "llama3"];
     commonApi := fun _ => Throw (new_Error (js "Network Error"));
     not_iterable := new_TypeError (js "response.data is not iterable") |}.

(* ===================================================================== *)
(** * Properties *)
(* ===================================================================== *)

(** ** The monad *)

(** Membership of a code unit or a command in a literal list that does not
    contain it. *)
Ltac absurd_member H :=
  vm_compute in H;
  repeat (apply elem_of_cons in H as [H|H]; [discriminate H|]);
  apply elem_of_nil in H; exact H.


Lemma bind_unfold {A B : Type} (m : M A) (k : A -> M B) (w : World) :
  (m ≫= k) w = match m w with
               | (Ok a, w') => k a w'
               | (Throw e, w') => (Throw e, w')
               end.
Proof. reflexivity. Qed.

Lemma bind_Ok_inv {A B : Type} (m : M A) (k : A -> M B) w b w' :
  (m ≫= k) w = (Ok b, w') ->
  exists a w1, m w = (Ok a, w1) /\ k a w1 = (Ok b, w').
Proof.
  rewrite bind_unfold. destruct (m w) as [[a|e] w1]; intros Hk.
  - exists a, w1. split; [reflexivity | exact Hk].
  - discriminate Hk.
Qed.

(** One statement of a run that returned normally: the world after it. *)
Tactic Notation "after_statement" "in" ident(H) "as" ident(w) :=
  apply bind_Ok_inv in H as (? & w & _ & H).

Lemma bind_Ok_intro {A B : Type} (m : M A) (k : A -> M B) w a w1 :
  m w = (Ok a, w1) -> (m ≫= k) w = k a w1.
Proof. intros Hm. rewrite bind_unfold, Hm. reflexivity. Qed.

Lemma bind_Throw_intro {A B : Type} (m : M A) (k : A -> M B) w e w1 :
  m w = (Throw e, w1) -> (m ≫= k) w = (Throw e, w1).
Proof. intros Hm. rewrite bind_unfold, Hm. reflexivity. Qed.

Lemma try_catch_unfold {A : Type} (body : M A) (handler : Error -> M A) w :
  try_catch body handler w = match body w with
                             | (Ok a, w') => (Ok a, w')
                             | (Throw e, w') => handler e w'
                             end.
Proof. reflexivity. Qed.

Lemma console_log_run args w :
  console_log args w
  = (Ok tt, {| files := files w; console := console w ++ [(Stdout, args)];
               spawned := spawned w |}).
Proof. reflexivity. Qed.

(** ** ProcessRunner *)

Section ProcessRunner.
Context `{Platform}.

Lemma runCommand_result command w :
  fst (runCommand command w) = settle command (child_outcome command w).
Proof.
  unfold runCommand, child_outcome.
  destruct (sh command _) as [outcome fs]. reflexivity.
Qed.

Lemma runCommand_spawned command w :
  spawned (snd (runCommand command w)) = spawned w ++ [command].
Proof.
  unfold runCommand. destruct (sh command _) as [outcome fs]. reflexivity.
Qed.

Lemma runCommand_console command w :
  console (snd (runCommand command w)) = console w.
Proof.
  unfold runCommand. destruct (sh command _) as [outcome fs]. reflexivity.
Qed.

(** C9, amended.  [runCommand] resolves (with "success") exactly when the
    child exits with code 0; on every other exit, a non-zero code or a
    signal, it fails with an error whose message is "Command failed: "
    followed by the command, the same error whatever the code was; when
    the child could not start it fails with the error of the spawn
    itself.  In every case the command has been handed to the shell. *)
Theorem runCommand_settles (command : jsstring) (w : World) :
  ((exists v, fst (runCommand command w) = Ok v)
     <-> child_outcome command w = Exited (Some 0%Z))
  /\ (forall v, fst (runCommand command w) = Ok v -> v = js "success")
  /\ (forall code, child_outcome command w = Exited code ->
                   code <> Some 0%Z ->
                   fst (runCommand command w)
                   = Throw (new_Error (js "Command failed: " ++ command)))
  /\ (forall error, child_outcome command w = SpawnFailed error ->
                    fst (runCommand command w) = Throw error)
  /\ spawned (snd (runCommand command w)) = spawned w ++ [command].
Proof.
  rewrite runCommand_result, runCommand_spawned.
  destruct (child_outcome command w) as [code|error] eqn:Hout; simpl.
  - case_bool_decide as Hcode.
    + subst code. split; [split; eauto |].
      repeat split; congruence.
    + split; [split; [intros [v Hv]; discriminate Hv | congruence] |].
      repeat split; congruence.
  - split; [split; [intros [v Hv]; discriminate Hv | discriminate] |].
    repeat split; congruence.
Qed.
End ProcessRunner.

(** The error of a failed command does not determine the exit code. *)
Lemma settle_forgets_code command :
  settle command (Exited (Some 1%Z)) = settle command (Exited (Some 2%Z)).
Proof. reflexivity. Qed.

(** C9 as stated fails: no function reads the exit code back from the error
    [runCommand] rejects with, since exit codes 1 and 2 of the command
    [false] give the same error. *)
Lemma exit_code_not_carried :
  ~ (exists exit_code_of : Error -> Z,
        forall (command : jsstring) (code : Z) (e : Error),
          code <> 0%Z ->
          settle command (Exited (Some code)) = Throw e ->
          exit_code_of e = code).
Proof.
  intros [f Hf].
  pose proof (Hf (js "false") 1%Z _ ltac:(lia) eq_refl) as H1.
  pose proof (Hf (js "false") 2%Z _ ltac:(lia) eq_refl) as H2.
  assert (1 = 2)%Z as Habsurd by (rewrite <- H1; exact H2).
  discriminate Habsurd.
Qed.

(** ** ContainerLifecycleManager *)

Section Cleanup.
Context `{Platform}.

End Cleanup.

(** Cleanup of a container that does not exist, on a shell where every
    docker command fails. *)
Example cleanup_nothing_to_clean :
  fst (cleanupExistingContainers (H := failing_platform)
         (ConfigObj sample_config) empty_world) = Ok tt.
Proof. vm_compute. reflexivity. Qed.

(** ** RepoStructureDetector *)

Section Detect.
Context `{Platform}.

Lemma check_compose_run repoPath candidates structure w :
  check_compose repoPath candidates structure w
  = (Ok match find (fun f => bool_decide (present w repoPath f)) candidates with
        | Some f => {| hasDockerCompose := true;
                       hasDockerfile := hasDockerfile structure;
                       composeFile := Some f |}
        | None => structure
        end, w).
Proof.
  induction candidates as [|file rest IH]; simpl; [reflexivity|].
  rewrite bind_unfold. unfold existsSync at 1. unfold present at 1.
  destruct (bool_decide (is_Some (files w !! path_join repoPath file)));
    [reflexivity | exact IH].
Qed.

Lemma find_first {A : Type} (p : A -> bool) pre x post :
  (forall y, In y pre -> p y = false) -> p x = true ->
  find p (pre ++ x :: post) = Some x.
Proof.
  intros Hpre Hx. induction pre as [|y pre IH]; simpl.
  - rewrite Hx. reflexivity.
  - rewrite (Hpre y) by (left; reflexivity).
    apply IH. intros z Hz. apply Hpre. right. exact Hz.
Qed.

Lemma find_only {A : Type} `{EqDecision A} (p : A -> bool) l x :
  In x l -> p x = true -> (forall y, In y l -> y <> x -> p y = false) ->
  find p l = Some x.
Proof.
  induction l as [|y l IH]; simpl; [contradiction|].
  intros Hin Hx Hothers.
  destruct (p y) eqn:Hy.
  - f_equal. destruct Hin as [->|Hin]; [reflexivity|].
    destruct (decide (y = x)) as [->|Hne]; [reflexivity|].
    rewrite (Hothers y) in Hy by (auto; left; reflexivity). discriminate Hy.
  - destruct Hin as [->|Hin]; [congruence|].
    apply IH; auto.
Qed.

Lemma detectRepoStructure_run repoPath w :
  detectRepoStructure repoPath w
  = (Ok {| hasDockerCompose :=
             match find (fun f => bool_decide (present w repoPath f)) composeFiles with
             | Some _ => true | None => false end;
           hasDockerfile := bool_decide (present w repoPath (js "Dockerfile"));
           composeFile :=
             find (fun f => bool_decide (present w repoPath f)) composeFiles |},
     w).
Proof.
  unfold detectRepoStructure. rewrite bind_unfold, check_compose_run.
  rewrite bind_unfold. unfold existsSync, present.
  destruct (find _ composeFiles);
    destruct (bool_decide (is_Some (files w !! path_join repoPath (js "Dockerfile"))));
    reflexivity.
Qed.

(** C4.  [detectRepoStructure] returns a structure and leaves the world
    as it was.  The candidates are the four compose file names in the
    order of [composeFiles]: the first of them that is present gives
    [hasDockerCompose = true] with that name in [composeFile]; when
    exactly one of the four is present it is the one recorded; when none
    is present [hasDockerCompose = false] and [composeFile] is null.
    [hasDockerfile] tells whether [Dockerfile] is present, independently. *)
Theorem detect_compose_descriptor (repoPath : jsstring) (w : World) :
  composeFiles = map js ["docker-compose.yml"; "docker-compose.yaml";
                         "compose.yml"; "compose.yaml"]%string
  /\ exists s,
    detectRepoStructure repoPath w = (Ok s, w)
    /\ (forall pre f post,
           composeFiles = pre ++ f :: post ->
           (forall g, In g pre -> ~ present w repoPath g) ->
           present w repoPath f ->
           hasDockerCompose s = true /\ composeFile s = Some f)
    /\ (forall f,
           In f composeFiles -> present w repoPath f ->
           (forall g, In g composeFiles -> g <> f -> ~ present w repoPath g) ->
           hasDockerCompose s = true /\ composeFile s = Some f)
    /\ ((forall g, In g composeFiles -> ~ present w repoPath g) ->
        hasDockerCompose s = false /\ composeFile s = None)
    /\ (hasDockerfile s = true <-> present w repoPath (js "Dockerfile")).
Proof.
  split; [reflexivity|].
  eexists. split; [apply detectRepoStructure_run|].
  cbn [hasDockerCompose composeFile hasDockerfile].
  split; [|split; [|split]].
  - intros pre f post Hsplit Hpre Hf.
    rewrite Hsplit, find_first; [split; reflexivity | |].
    + intros g Hg. apply bool_decide_eq_false. apply Hpre, Hg.
    + apply bool_decide_eq_true. exact Hf.
  - intros f Hin Hf Hothers.
    rewrite (find_only _ composeFiles f); [split; reflexivity | assumption | |].
    + apply bool_decide_eq_true. exact Hf.
    + intros g Hg Hne. apply bool_decide_eq_false. apply Hothers; assumption.
  - intros Hnone.
    destruct (find _ composeFiles) as [f|] eqn:Hfind; [|split; reflexivity].
    apply find_some in Hfind as [Hin Hf].
    apply bool_decide_eq_true in Hf. destruct (Hnone f Hin Hf).
  - apply bool_decide_eq_true.
Qed.
End Detect.

(** ** DeploymentStrategySelector *)

Section Strategy.
Context `{Platform}.

End Strategy.

(** ** Plain objects *)

Lemma own_get_None o k : own_get o k = None <-> k ∉ o.*1.
Proof.
  induction o as [|[k' v] o IH]; simpl.
  - split; [intros _; apply not_elem_of_nil | reflexivity].
  - rewrite not_elem_of_cons. case_bool_decide as Hk.
    + split; [discriminate | intros [Hne _]; congruence].
    + rewrite IH. split; [intros Hn; split; [congruence | exact Hn] | intros [_ Hn]; exact Hn].
Qed.

Lemma own_get_Some o k v : NoDup o.*1 -> (k, v) ∈ o -> own_get o k = Some v.
Proof.
  induction o as [|[k' v'] o IH]; simpl; intros Hnd Hin.
  - apply elem_of_nil in Hin. destruct Hin.
  - apply NoDup_cons in Hnd as [Hfresh Hnd].
    apply elem_of_cons in Hin as [Heq|Hin].
    + injection Heq as -> ->. rewrite bool_decide_eq_true_2 by reflexivity. reflexivity.
    + case_bool_decide as Hk.
      * subst k'. exfalso. apply Hfresh.
        apply (list_elem_of_fmap_2 fst) in Hin. exact Hin.
      * apply IH; assumption.
Qed.

Lemma own_get_elem o k v : own_get o k = Some v -> (k, v) ∈ o.
Proof.
  induction o as [|[k' v'] o IH]; simpl; [discriminate|].
  case_bool_decide as Hk.
  - intros [= ->]. subst k'. left.
  - intros Hget. right. apply IH, Hget.
Qed.

Lemma has_own_true o k : has_own o k = true <-> k ∈ o.*1.
Proof.
  unfold has_own. destruct (own_get o k) as [v|] eqn:Hget.
  - split; [intros _ | reflexivity].
    apply own_get_elem in Hget. apply (list_elem_of_fmap_2 fst) in Hget. exact Hget.
  - apply own_get_None in Hget. split; [discriminate | intros Hin; destruct (Hget Hin)].
Qed.

Lemma has_own_false o k : has_own o k = false <-> k ∉ o.*1.
Proof.
  rewrite <- has_own_true. destruct (has_own o k); split; congruence.
Qed.

Lemma own_update_keys k v o : (own_update k v o).*1 = o.*1.
Proof.
  induction o as [|[k' v'] o IH]; csimpl; [reflexivity|].
  case_bool_decide; csimpl; [reflexivity | rewrite IH; reflexivity].
Qed.

Lemma obj_set_fresh k v o :
  k <> js "__proto__" -> k ∉ o.*1 -> obj_set k v o = o ++ [(k, v)].
Proof.
  intros Hproto Hfresh. unfold obj_set.
  rewrite bool_decide_eq_false_2 by exact Hproto.
  apply has_own_false in Hfresh. rewrite Hfresh. reflexivity.
Qed.

Lemma obj_set_well_formed k v o : well_formed o -> well_formed (obj_set k v o).
Proof.
  intros [Hnd Hproto]. unfold obj_set.
  case_bool_decide as Hk; [split; assumption|].
  destruct (has_own o k) eqn:Hown.
  - unfold well_formed. rewrite own_update_keys. split; assumption.
  - apply has_own_false in Hown. unfold well_formed.
    rewrite fmap_app. simpl. split.
    + apply NoDup_app. split; [exact Hnd|]. split; [|apply NoDup_singleton].
      intros x Hx Hx'. apply list_elem_of_singleton in Hx'. subst x. exact (Hown Hx).
    + rewrite elem_of_app, list_elem_of_singleton. intros [Hin|Heq]; [exact (Hproto Hin) | congruence].
Qed.

Lemma env_line_well_formed vars line : well_formed vars -> well_formed (env_line vars line).
Proof.
  intros Hwf. unfold env_line.
  destruct (_ && _); [|exact Hwf].
  destruct (split_on _ _); [exact Hwf|]. apply obj_set_well_formed, Hwf.
Qed.

Lemma well_formed_nil : well_formed [].
Proof. split; [apply NoDup_nil_2 | apply not_elem_of_nil]. Qed.

Lemma fold_env_line_well_formed lines vars :
  well_formed vars -> well_formed (fold_left env_line lines vars).
Proof.
  revert vars. induction lines as [|line lines IH]; simpl; intros vars Hwf; [exact Hwf|].
  apply IH, env_line_well_formed, Hwf.
Qed.

Lemma parse_env_well_formed content : well_formed (parse_env content).
Proof. apply fold_env_line_well_formed, well_formed_nil. Qed.

Lemma env_at_well_formed w p : well_formed (env_at w p).
Proof.
  unfold env_at. destruct (files w !! p); [apply parse_env_well_formed | apply well_formed_nil].
Qed.

(** Enumeration order *)

Lemma insert_by_index_perm x l : insert_by_index x l ≡ₚ x :: l.
Proof.
  induction l as [|y l IH]; simpl; [reflexivity|].
  destruct (index_of x <=? index_of y); [reflexivity|].
  rewrite IH. apply Permutation_swap.
Qed.

Lemma sort_by_index_perm l : sort_by_index l ≡ₚ l.
Proof.
  induction l as [|x l IH]; simpl; [reflexivity|].
  rewrite insert_by_index_perm, IH. reflexivity.
Qed.

Lemma insert_by_index_sorted x l :
  StronglySorted index_le l -> StronglySorted index_le (insert_by_index x l).
Proof.
  induction 1 as [|y l Hl IH Hy]; simpl.
  - repeat constructor.
  - destruct (index_of x <=? index_of y) eqn:Hxy.
    + apply N.leb_le in Hxy. constructor; [constructor; assumption|].
      constructor; [exact Hxy|].
      eapply Forall_impl; [exact Hy|]. intros z Hz. unfold index_le in *. lia.
    + apply N.leb_gt in Hxy. constructor; [exact IH|].
      rewrite insert_by_index_perm. constructor; [unfold index_le; lia | exact Hy].
Qed.

Lemma sort_by_index_sorted l : StronglySorted index_le (sort_by_index l).
Proof.
  induction l as [|x l IH]; simpl; [constructor | apply insert_by_index_sorted, IH].
Qed.

Lemma sort_by_index_id l : StronglySorted index_le l -> sort_by_index l = l.
Proof.
  induction 1 as [|x l Hl IH Hx]; simpl; [reflexivity|].
  rewrite IH. destruct l as [|y l]; simpl; [reflexivity|].
  apply Forall_cons in Hx as [Hxy _]. unfold index_le in Hxy.
  apply N.leb_le in Hxy. rewrite Hxy. reflexivity.
Qed.

Lemma sort_by_index_idem l : sort_by_index (sort_by_index l) = sort_by_index l.
Proof. apply sort_by_index_id, sort_by_index_sorted. Qed.

Lemma filter_all {A} (P : A -> Prop) `{forall x, Decision (P x)} (l : list A) :
  Forall P l -> filter P l = l.
Proof.
  induction 1 as [|x l Hx Hl IH]; [reflexivity|].
  rewrite filter_cons_True by exact Hx. rewrite IH. reflexivity.
Qed.

Lemma filter_none {A} (P : A -> Prop) `{forall x, Decision (P x)} (l : list A) :
  Forall (fun x => ~ P x) l -> filter P l = [].
Proof.
  induction 1 as [|x l Hx Hl IH]; [reflexivity|].
  rewrite filter_cons_False by exact Hx. exact IH.
Qed.

Lemma sorted_indices_are_indices l :
  Forall (fun e => is_index e = true)
         (sort_by_index (filter (fun e => is_index e = true) l)).
Proof.
  rewrite sort_by_index_perm. apply Forall_forall.
  intros e He. apply list_elem_of_filter in He as [He _]. exact He.
Qed.

Lemma Object_entries_perm o : Object_entries o ≡ₚ o.
Proof.
  unfold Object_entries. rewrite sort_by_index_perm.
  rewrite <- (filter_app_complement (fun e => is_index e = true) o) at 3.
  apply Permutation_app_head.
  erewrite list_filter_iff; [reflexivity|].
  intros e. simpl. destruct (is_index e); split; congruence.
Qed.

(** Enumerating an object that was filled in enumeration order, followed by
    entries without array-index keys. *)
Lemma Object_entries_app_plain o extra :
  Forall (fun e => is_index e = false) extra ->
  Object_entries (Object_entries o ++ extra) = Object_entries o ++ extra.
Proof.
  intros Hextra. unfold Object_entries at 1.
  rewrite !filter_app.
  rewrite (filter_none _ extra), app_nil_r.
  2:{ eapply Forall_impl; [exact Hextra|]. intros e He. simpl in *. congruence. }
  rewrite (filter_all _ extra) by exact Hextra.
  unfold Object_entries.
  rewrite !filter_app.
  rewrite (filter_all _ (sort_by_index _)) by apply sorted_indices_are_indices.
  rewrite (filter_none _ (filter (fun e => is_index e = false) o)), app_nil_r.
  2:{ apply Forall_forall. intros e He. apply list_elem_of_filter in He as [He _]. congruence. }
  rewrite sort_by_index_idem.
  rewrite (filter_none (fun e => is_index e = false) (sort_by_index _)), app_nil_l.
  2:{ eapply Forall_impl; [apply sorted_indices_are_indices|]. intros e He. simpl in *. congruence. }
  rewrite (filter_all (fun e => is_index e = false)).
  2:{ apply Forall_forall. intros e He. apply list_elem_of_filter in He as [He _]. exact He. }
  rewrite app_assoc. reflexivity.
Qed.

Lemma Object_entries_idem o : Object_entries (Object_entries o) = Object_entries o.
Proof.
  rewrite <- (app_nil_r (Object_entries o)) at 1.
  rewrite Object_entries_app_plain by constructor. apply app_nil_r.
Qed.

Lemma Object_entries_keys o k : k ∈ (Object_entries o).*1 <-> k ∈ o.*1.
Proof. rewrite Object_entries_perm. reflexivity. Qed.

Lemma Object_entries_well_formed o : well_formed o -> well_formed (Object_entries o).
Proof.
  intros [Hnd Hproto]. split.
  - rewrite Object_entries_perm. exact Hnd.
  - rewrite Object_entries_keys. exact Hproto.
Qed.

(** ** EnvMerger *)

Lemma copy_fold (r : obj) (es acc : obj) :
  (forall k v, (k, v) ∈ es -> own_get r k = Some v) ->
  NoDup (acc ++ es).*1 -> js "__proto__" ∉ es.*1 ->
  fold_left (fun mergedVars key => obj_set key (obj_read r key) mergedVars)
            es.*1 acc
  = acc ++ es.
Proof.
  revert acc. induction es as [|[k v] es IH]; intros acc Hget Hnd Hproto; csimpl.
  - symmetry. apply app_nil_r.
  - rewrite fmap_cons in Hproto. apply not_elem_of_cons in Hproto as [Hk Hproto].
    unfold obj_read. rewrite (Hget k v) by left.
    rewrite obj_set_fresh; [| intros Heq; apply Hk; symmetry; exact Heq |].
    + rewrite IH.
      * rewrite <- app_assoc. reflexivity.
      * intros k' v' Hin. apply Hget. right. exact Hin.
      * rewrite <- app_assoc. exact Hnd.
      * exact Hproto.
    + rewrite fmap_app in Hnd. apply NoDup_app in Hnd as (_ & Hdisj & _).
      intros Hin. apply (Hdisj k Hin). csimpl. left.
Qed.

Lemma copy_root_entries r : well_formed r -> copy_root r = Object_entries r.
Proof.
  intros Hwf. unfold copy_root, Object_keys.
  destruct (Object_entries_well_formed r Hwf) as [Hnd Hproto].
  rewrite copy_fold; [reflexivity | | exact Hnd | exact Hproto].
  intros k v Hin. apply own_get_Some; [apply Hwf|].
  rewrite <- Object_entries_perm. exact Hin.
Qed.

Lemma add_local_only_run r l keys m w :
  has_own r (js "hasOwnProperty") = false ->
  add_local_only r l keys m w = (Ok (fold_left (keep_local_only r l) keys m), w).
Proof.
  intros Hr. revert m. induction keys as [|key keys IH]; intros m; simpl.
  - reflexivity.
  - rewrite bind_unfold. unfold call_hasOwnProperty. rewrite Hr. simpl.
    apply IH.
Qed.

Lemma add_local_only_world r l keys m w :
  snd (add_local_only r l keys m w) = w.
Proof.
  revert m. induction keys as [|key keys IH]; intros m; simpl.
  - reflexivity.
  - rewrite bind_unfold. unfold call_hasOwnProperty.
    destruct (has_own r (js "hasOwnProperty")); simpl; [reflexivity | apply IH].
Qed.

Lemma local_fold (r l : obj) (es acc : obj) :
  (forall k v, (k, v) ∈ es -> own_get l k = Some v) ->
  NoDup es.*1 -> js "__proto__" ∉ es.*1 ->
  (forall k, k ∈ es.*1 -> has_own r k = false -> k ∉ acc.*1) ->
  fold_left (keep_local_only r l) es.*1 acc
  = acc ++ filter (fun e => has_own r (fst e) = false) es.
Proof.
  revert acc. induction es as [|[k v] es IH]; intros acc Hget Hnd Hproto Hacc; csimpl.
  - symmetry. apply app_nil_r.
  - apply NoDup_cons in Hnd as [Hfresh Hnd].
    apply not_elem_of_cons in Hproto as [Hk Hproto].
    unfold keep_local_only at 2. destruct (has_own r k) eqn:Hown; simpl.
    + rewrite filter_cons_False by (simpl; congruence).
      apply IH; auto.
      * intros k' v' Hin. apply Hget. right. exact Hin.
      * intros k' Hin. apply Hacc. right. exact Hin.
    + rewrite filter_cons_True by exact Hown.
      unfold obj_read. rewrite (Hget k v) by left.
      rewrite obj_set_fresh;
        [| intros Heq; apply Hk; symmetry; exact Heq | apply Hacc; [left | exact Hown]].
      rewrite IH; auto.
      * rewrite <- app_assoc. reflexivity.
      * intros k' v' Hin. apply Hget. right. exact Hin.
      * intros k' Hin Hk'. rewrite fmap_app, elem_of_app. csimpl.
        rewrite list_elem_of_singleton. intros [Ha|Heq].
        -- apply (Hacc k'); [right; exact Hin | exact Hk' | exact Ha].
        -- subst k'. exact (Hfresh Hin).
Qed.

Lemma merged_entries r l :
  well_formed r -> well_formed l ->
  fold_left (keep_local_only r l) (Object_keys l) (copy_root r)
  = Object_entries r ++ local_only r l.
Proof.
  intros Hr Hl. rewrite copy_root_entries by exact Hr.
  destruct (Object_entries_well_formed l Hl) as [Hnd Hproto].
  unfold Object_keys, local_only. apply local_fold; auto.
  - intros k v Hin. apply own_get_Some; [apply Hl|].
    rewrite <- Object_entries_perm. exact Hin.
  - intros k _ Hown. apply has_own_false in Hown.
    rewrite Object_entries_keys. exact Hown.
Qed.

Lemma read_env_run p w : read_env p w = (Ok (env_at w p), w).
Proof.
  unfold read_env, env_at. rewrite bind_unfold. unfold existsSync.
  destruct (files w !! p) as [content|] eqn:Hp; simpl.
  - rewrite bind_unfold. unfold readFileSync. rewrite Hp. reflexivity.
  - reflexivity.
Qed.

Lemma mergeEnvironmentFiles_cases root local out w :
  (exists m,
      mergeEnvironmentFiles root local out w
      = (Ok m, {| files := <[out := env_content m]> (files w);
                  console := console w ++ [merged_log m];
                  spawned := spawned w |}))
  \/ (exists e,
      mergeEnvironmentFiles root local out w
      = (Throw e, {| files := files w;
                     console := console w
                       ++ [(Stderr, [LStr ([10060] ++ js " Error merging environment files:");
                                     LErr e])];
                     spawned := spawned w |})).
Proof.
  unfold mergeEnvironmentFiles. rewrite try_catch_unfold.
  rewrite bind_unfold, read_env_run. rewrite bind_unfold, read_env_run.
  rewrite bind_unfold.
  pose proof (add_local_only_world (env_at w root) (env_at w local)
                (Object_keys (env_at w local)) (copy_root (env_at w root)) w) as Hw.
  destruct (add_local_only _ _ _ _ w) as [[m|e] w1]; simpl in Hw; subst w1.
  - left. exists m. reflexivity.
  - right. exists e. reflexivity.
Qed.

Lemma mergeEnvironmentFiles_run root local out w :
  has_own (env_at w root) (js "hasOwnProperty") = false ->
  let m := Object_entries (env_at w root)
           ++ local_only (env_at w root) (env_at w local) in
  mergeEnvironmentFiles root local out w
  = (Ok m, {| files := <[out := env_content m]> (files w);
              console := console w ++ [merged_log m];
              spawned := spawned w |}).
Proof.
  intros Hr m. unfold mergeEnvironmentFiles. rewrite try_catch_unfold.
  rewrite bind_unfold, read_env_run. rewrite bind_unfold, read_env_run.
  rewrite bind_unfold, add_local_only_run by exact Hr.
  rewrite merged_entries by apply env_at_well_formed.
  reflexivity.
Qed.

Lemma own_get_app (a b : obj) k :
  own_get (a ++ b) k
  = match own_get a k with Some v => Some v | None => own_get b k end.
Proof.
  induction a as [|[k' v'] a IH]; simpl; [reflexivity|].
  case_bool_decide; [reflexivity | exact IH].
Qed.

Lemma own_get_perm (a b : obj) k :
  NoDup a.*1 -> a ≡ₚ b -> own_get a k = own_get b k.
Proof.
  intros Hnd Hperm.
  destruct (own_get a k) as [v|] eqn:Ha.
  - symmetry. apply own_get_Some.
    + rewrite <- Hperm. exact Hnd.
    + rewrite <- Hperm. apply own_get_elem, Ha.
  - symmetry. apply own_get_None. rewrite <- Hperm. apply own_get_None, Ha.
Qed.

Lemma own_get_local_only (r l : obj) k :
  own_get (filter (fun e => has_own r (fst e) = false) l) k
  = if has_own r k then None else own_get l k.
Proof.
  induction l as [|[k' v'] l IH]; simpl.
  - destruct (has_own r k); reflexivity.
  - destruct (has_own r k') eqn:Hk'.
    + rewrite filter_cons_False by (simpl; congruence).
      rewrite IH. case_bool_decide as Hk; [subst k'; rewrite Hk'|]; reflexivity.
    + rewrite filter_cons_True by exact Hk'. simpl.
      case_bool_decide as Hk; [subst k'; rewrite Hk'; reflexivity | exact IH].
Qed.

Lemma merged_lookup (r l : obj) k :
  well_formed r -> well_formed l ->
  own_get (Object_entries r ++ local_only r l) k
  = match own_get r k with Some v => Some v | None => own_get l k end.
Proof.
  intros Hr Hl. rewrite own_get_app.
  rewrite (own_get_perm (Object_entries r) r).
  2:{ apply Object_entries_well_formed, Hr. }
  2:{ apply Object_entries_perm. }
  unfold local_only. rewrite own_get_local_only.
  rewrite (own_get_perm (Object_entries l) l).
  2:{ apply Object_entries_well_formed, Hl. }
  2:{ apply Object_entries_perm. }
  unfold has_own. destruct (own_get r k); reflexivity.
Qed.

Lemma env_content_lines m : env_content m = env_lines (Object_entries m).
Proof. reflexivity. Qed.

(** C1, amended.  When [rootVars] has no own key named [hasOwnProperty],
    the merge returns and writes its output to [outputPath].  The merged
    variables are exactly the root variables with root's values (empty or
    not, whatever local says) and the variables only local has with local's
    values.  When no local-only key is an array index, the lines of the
    output are the root entries in root's order followed by the local-only
    entries in local's order, joined by newline. *)
Theorem merge_output (rootPath localPath outputPath : jsstring) (w : World) :
  let rootVars := env_at w rootPath in
  let localVars := env_at w localPath in
  has_own rootVars (js "hasOwnProperty") = false ->
  exists mergedVars w',
    mergeEnvironmentFiles rootPath localPath outputPath w = (Ok mergedVars, w')
    /\ files w' = <[outputPath := env_content mergedVars]> (files w)
    /\ (forall k,
           own_get mergedVars k
           = match own_get rootVars k with
             | Some v => Some v
             | None => own_get localVars k
             end)
    /\ ((forall k v, (k, v) ∈ local_only rootVars localVars ->
                     array_index k = None) ->
        env_content mergedVars = merge_as_specified rootVars localVars).
Proof.
  intros rootVars localVars Hroot.
  eexists _, _. split; [apply mergeEnvironmentFiles_run, Hroot|].
  split; [reflexivity|]. split.
  - intros k. apply merged_lookup; apply env_at_well_formed.
  - intros Hplain. rewrite env_content_lines. unfold merge_as_specified.
    f_equal. apply Object_entries_app_plain.
    apply Forall_forall. intros [k v] Hin. unfold is_index. simpl.
    rewrite (Hplain k v Hin). reflexivity.
Qed.

(** C1 as stated fails: with root file [A=1] and local file [1=x] the
    output is "1=x" then "A=1", the local-only key before the root key,
    where the specified output is "A=1" then "1=x". *)
Lemma merge_order_counterexample :
  files (snd (mergeEnvironmentFiles (js "/workspace/.env")
                (js "/workspace/demo/.env") (js "/workspace/demo/.env.temp")
                index_key_world)) !! js "/workspace/demo/.env.temp"
  = Some (js "1=x" ++ [ch_newline] ++ js "A=1")
  /\ merge_as_specified (env_at index_key_world (js "/workspace/.env"))
                        (env_at index_key_world (js "/workspace/demo/.env"))
     = js "A=1" ++ [ch_newline] ++ js "1=x"
  /\ files (snd (mergeEnvironmentFiles (js "/workspace/.env")
                   (js "/workspace/demo/.env") (js "/workspace/demo/.env.temp")
                   index_key_world)) !! js "/workspace/demo/.env.temp"
     <> Some (merge_as_specified
                (env_at index_key_world (js "/workspace/.env"))
                (env_at index_key_world (js "/workspace/demo/.env"))).
Proof.
  vm_compute. split; [reflexivity|]. split; [reflexivity|]. discriminate.
Qed.

(** Scenario A of the specification: root [{A=1,B=2}], local [{B=,C=3}]
    merge to [A=1], [B=2], [C=3]. *)
Example merge_scenario_A :
  files (snd (mergeEnvironmentFiles (js "/workspace/.env")
                (js "/workspace/demo/.env") (js "/workspace/demo/.env.temp")
                scenario_A_world)) !! js "/workspace/demo/.env.temp"
  = Some (js "A=1" ++ [ch_newline] ++ js "B=2" ++ [ch_newline] ++ js "C=3").
Proof. vm_compute. reflexivity. Qed.

(** A root file that defines [hasOwnProperty] makes the merge throw as soon
    as local has a variable; nothing is written. *)
Example merge_hasOwnProperty_throws :
  fst (mergeEnvironmentFiles (js "/workspace/.env") (js "/workspace/demo/.env")
         (js "/workspace/demo/.env.temp") shadowing_world)
  = Throw (new_TypeError (js "rootVars.hasOwnProperty is not a function"))
  /\ files (snd (mergeEnvironmentFiles (js "/workspace/.env")
                   (js "/workspace/demo/.env") (js "/workspace/demo/.env.temp")
                   shadowing_world))
     = files shadowing_world.
Proof. vm_compute. split; reflexivity. Qed.

(** Whether it returns or throws, the merge changes no file but the one at
    its output path, and spawns nothing. *)
Lemma merge_frame (rootPath localPath outputPath : jsstring) (w : World) :
  (forall p, p <> outputPath ->
             files (snd (mergeEnvironmentFiles rootPath localPath outputPath w)) !! p
             = files w !! p)
  /\ spawned (snd (mergeEnvironmentFiles rootPath localPath outputPath w))
     = spawned w.
Proof.
  destruct (mergeEnvironmentFiles_cases rootPath localPath outputPath w)
    as [[m ->]|[e ->]]; simpl.
  - split; [|reflexivity]. intros p Hp. apply lookup_insert_ne. congruence.
  - split; reflexivity.
Qed.

(** The output path both installers pass is never one of their two source
    paths, whatever the repository path. *)
Lemma temp_path_distinct (repoPath : jsstring) :
  repoPath ++ js "/.env.temp" <> rootEnvPath
  /\ repoPath ++ js "/.env.temp" <> repoPath ++ js "/.env".
Proof.
  split.
  - intros Heq. apply (f_equal (@rev N)) in Heq.
    rewrite rev_app_distr in Heq. discriminate Heq.
  - intros Heq. apply app_inv_head in Heq. discriminate Heq.
Qed.

(** In both installers the merge leaves the root env file and the working
    env file as they were. *)
Lemma installer_merge_leaves_sources (repoPath : jsstring) (w : World) :
  files (snd (mergeEnvironmentFiles rootEnvPath (repoPath ++ js "/.env")
                (repoPath ++ js "/.env.temp") w)) !! rootEnvPath
  = files w !! rootEnvPath
  /\ files (snd (mergeEnvironmentFiles rootEnvPath (repoPath ++ js "/.env")
                   (repoPath ++ js "/.env.temp") w)) !! (repoPath ++ js "/.env")
     = files w !! (repoPath ++ js "/.env").
Proof.
  destruct (temp_path_distinct repoPath) as [Hroot Hlocal].
  destruct (merge_frame rootEnvPath (repoPath ++ js "/.env")
              (repoPath ++ js "/.env.temp") w) as [Hframe _].
  split; apply Hframe; congruence.
Qed.

(** C3.  With an output path different from both source paths, the merge
    leaves the root file and the local file as they were, whether it
    returns or throws: no path other than the output path changes, and no
    command is spawned. *)
Theorem merge_leaves_sources (rootPath localPath outputPath : jsstring)
  (w : World) :
  outputPath <> rootPath -> outputPath <> localPath ->
  files (snd (mergeEnvironmentFiles rootPath localPath outputPath w)) !! rootPath
  = files w !! rootPath
  /\ files (snd (mergeEnvironmentFiles rootPath localPath outputPath w)) !! localPath
     = files w !! localPath
  /\ (forall p, p <> outputPath ->
                files (snd (mergeEnvironmentFiles rootPath localPath outputPath w)) !! p
                = files w !! p)
  /\ spawned (snd (mergeEnvironmentFiles rootPath localPath outputPath w))
     = spawned w.
Proof.
  intros Hroot Hlocal.
  destruct (merge_frame rootPath localPath outputPath w) as [Hframe Hspawned].
  split; [apply Hframe; congruence|].
  split; [apply Hframe; congruence|].
  split; assumption.
Qed.

Lemma merge_leaves_sources_witness :
  files (snd (mergeEnvironmentFiles (js "/workspace/.env")
                (js "/workspace/demo/.env") (js "/workspace/demo/.env.temp")
                scenario_A_world)) !! js "/workspace/.env"
  = files scenario_A_world !! js "/workspace/.env"
  /\ files (snd (mergeEnvironmentFiles (js "/workspace/.env")
                   (js "/workspace/demo/.env") (js "/workspace/demo/.env.temp")
                   scenario_A_world)) !! js "/workspace/demo/.env"
     = files scenario_A_world !! js "/workspace/demo/.env".
Proof.
  destruct (merge_leaves_sources (js "/workspace/.env")
              (js "/workspace/demo/.env") (js "/workspace/demo/.env.temp")
              scenario_A_world)
    as (Hroot & Hlocal & _); [discriminate | discriminate |].
  split; [exact Hroot | exact Hlocal].
Defined.

Lemma local_only_nil_root (l : obj) : local_only [] l = Object_entries l.
Proof.
  unfold local_only. apply filter_all. apply Forall_forall. intros e _.
  reflexivity.
Qed.

Lemma env_at_missing w p : files w !! p = None -> env_at w p = [].
Proof. intros Hp. unfold env_at. rewrite Hp. reflexivity. Qed.

Lemma merge_without_root rootPath localPath outputPath w :
  env_at w rootPath = [] ->
  mergeEnvironmentFiles rootPath localPath outputPath w
  = (Ok (Object_entries (env_at w localPath)),
     {| files := <[outputPath := env_lines (Object_entries (env_at w localPath))]>
                   (files w);
        console := console w ++ [merged_log (Object_entries (env_at w localPath))];
        spawned := spawned w |}).
Proof.
  intros Hroot. rewrite mergeEnvironmentFiles_run by (rewrite Hroot; reflexivity).
  rewrite Hroot, local_only_nil_root. simpl.
  rewrite env_content_lines, Object_entries_idem. reflexivity.
Qed.

Lemma merge_without_local rootPath localPath outputPath w :
  env_at w localPath = [] ->
  mergeEnvironmentFiles rootPath localPath outputPath w
  = (Ok (Object_entries (env_at w rootPath)),
     {| files := <[outputPath := env_lines (Object_entries (env_at w rootPath))]>
                   (files w);
        console := console w ++ [merged_log (Object_entries (env_at w rootPath))];
        spawned := spawned w |}).
Proof.
  intros Hlocal. unfold mergeEnvironmentFiles. rewrite try_catch_unfold.
  rewrite bind_unfold, read_env_run. rewrite bind_unfold, read_env_run.
  rewrite Hlocal. change (Object_keys []) with (@nil jsstring).
  cbn [add_local_only]. rewrite bind_unfold.
  rewrite copy_root_entries by apply env_at_well_formed.
  cbn [mret M_ret ret]. rewrite bind_unfold. unfold writeFileSync.
  rewrite bind_unfold, console_log_run.
  rewrite env_content_lines, Object_entries_idem. reflexivity.
Qed.


(** *** Trimming *)

Lemma trimStart_elem x s : x ∈ trimStart s -> x ∈ s.
Proof.
  induction s as [|c s IH]; simpl; [trivial|].
  destruct (is_ws c); [intros Hx; right; apply IH, Hx | trivial].
Qed.

Lemma elem_of_rev (x : N) (l : list N) : x ∈ rev l <-> x ∈ l.
Proof. rewrite !list_elem_of_In. symmetry. apply in_rev. Qed.

Lemma trim_elem x s : x ∈ trim s -> x ∈ s.
Proof.
  unfold trim, trimEnd. rewrite elem_of_rev.
  intros Hx. apply trimStart_elem in Hx. rewrite elem_of_rev in Hx.
  apply trimStart_elem, Hx.
Qed.

Lemma starts_clean_trimStart s : starts_clean (trimStart s).
Proof.
  induction s as [|c s IH]; simpl; [exact I|].
  destruct (is_ws c) eqn:Hc; [exact IH | exact Hc].
Qed.

Lemma trimStart_clean s : starts_clean s -> trimStart s = s.
Proof. destruct s as [|c s]; simpl; [reflexivity | intros ->; reflexivity]. Qed.

Lemma trimStart_snoc l c : is_ws c = false -> trimStart (l ++ [c]) = trimStart l ++ [c].
Proof.
  intros Hc. induction l as [|x l IH]; simpl.
  - rewrite Hc. reflexivity.
  - destruct (is_ws x); [exact IH | reflexivity].
Qed.

Lemma trimEnd_cons c s : is_ws c = false -> trimEnd (c :: s) = c :: trimEnd s.
Proof.
  intros Hc. unfold trimEnd. simpl.
  rewrite trimStart_snoc by exact Hc. rewrite rev_app_distr. reflexivity.
Qed.

Lemma starts_clean_trimEnd s : starts_clean s -> starts_clean (trimEnd s).
Proof.
  destruct s as [|c s]; simpl; [intros _; exact I|].
  intros Hc. rewrite trimEnd_cons by exact Hc. exact Hc.
Qed.

Lemma trim_trimmed s : trimmed (trim s).
Proof.
  split.
  - apply starts_clean_trimEnd, starts_clean_trimStart.
  - unfold trim, trimEnd. rewrite rev_involutive. apply starts_clean_trimStart.
Qed.

Lemma trimmed_trim s : trimmed s -> trim s = s.
Proof.
  intros [Hs Hr]. unfold trim, trimEnd.
  rewrite (trimStart_clean s Hs), (trimStart_clean (rev s) Hr).
  apply rev_involutive.
Qed.

Lemma trimmed_nil : trimmed [].
Proof. split; exact I. Qed.

(** *** Splitting and joining *)

Lemma split_on_not_nil c s : split_on c s <> [].
Proof.
  destruct s as [|x s]; simpl; [discriminate|].
  destruct (x =? c); [discriminate|]. destruct (split_on c s); discriminate.
Qed.

Lemma split_on_elem c s p x : p ∈ split_on c s -> x ∈ p -> x ∈ s /\ x <> c.
Proof.
  revert p. induction s as [|y s IH]; simpl; intros p Hp Hx.
  - apply list_elem_of_singleton in Hp. subst p. apply elem_of_nil in Hx. destruct Hx.
  - destruct (y =? c) eqn:Hy.
    + apply elem_of_cons in Hp as [->|Hp]; [apply elem_of_nil in Hx; destruct Hx|].
      destruct (IH p Hp Hx) as [Hin Hne]. split; [right; exact Hin | exact Hne].
    + apply N.eqb_neq in Hy.
      destruct (split_on c s) as [|q qs] eqn:Hsplit.
      * apply list_elem_of_singleton in Hp. subst p.
        apply list_elem_of_singleton in Hx. subst x. split; [left | exact Hy].
      * apply elem_of_cons in Hp as [->|Hp].
        -- apply elem_of_cons in Hx as [->|Hx]; [split; [left | exact Hy]|].
           destruct (IH q ltac:(left) Hx) as [Hin Hne].
           split; [right; exact Hin | exact Hne].
        -- destruct (IH p ltac:(right; exact Hp) Hx) as [Hin Hne].
           split; [right; exact Hin | exact Hne].
Qed.

Lemma split_on_app c p t :
  c ∉ p -> split_on c (p ++ c :: t) = p :: split_on c t.
Proof.
  intros Hp. induction p as [|x p IH]; simpl.
  - rewrite N.eqb_refl. reflexivity.
  - apply not_elem_of_cons in Hp as [Hx Hp].
    destruct (x =? c) eqn:Hxc; [apply N.eqb_eq in Hxc; congruence|].
    rewrite IH by exact Hp. reflexivity.
Qed.

Lemma split_on_whole c p : c ∉ p -> split_on c p = [p].
Proof.
  intros Hp. induction p as [|x p IH]; simpl; [reflexivity|].
  apply not_elem_of_cons in Hp as [Hx Hp].
  destruct (x =? c) eqn:Hxc; [apply N.eqb_eq in Hxc; congruence|].
  rewrite IH by exact Hp. reflexivity.
Qed.

Lemma join_split c s : join [c] (split_on c s) = s.
Proof.
  induction s as [|x s IH]; simpl; [reflexivity|].
  destruct (x =? c) eqn:Hxc.
  - apply N.eqb_eq in Hxc. subst x.
    destruct (split_on c s) as [|q qs] eqn:Hsplit;
      [destruct (split_on_not_nil c s Hsplit)|].
    simpl in *. rewrite IH. reflexivity.
  - destruct (split_on c s) as [|q qs] eqn:Hsplit;
      [destruct (split_on_not_nil c s Hsplit)|].
    simpl in *. destruct qs; simpl in *; rewrite <- IH; reflexivity.
Qed.

Lemma split_join c (lines : list jsstring) :
  lines <> [] -> Forall (fun line => c ∉ line) lines ->
  split_on c (join [c] lines) = lines.
Proof.
  induction lines as [|p lines IH]; [congruence|].
  intros _ Hlines. apply Forall_cons in Hlines as [Hp Hlines].
  destruct lines as [|q lines].
  - simpl. apply split_on_whole, Hp.
  - change (join [c] (p :: q :: lines)) with (p ++ c :: join [c] (q :: lines)).
    rewrite split_on_app by exact Hp. rewrite IH; [reflexivity | discriminate | exact Hlines].
Qed.

Lemma join_elem sep parts x :
  x ∈ join sep parts -> x ∈ sep \/ exists p, p ∈ parts /\ x ∈ p.
Proof.
  induction parts as [|p parts IH]; simpl.
  - intros Hx. apply elem_of_nil in Hx. destruct Hx.
  - destruct parts as [|q parts].
    + intros Hx. right. exists p. split; [left | exact Hx].
    + rewrite !elem_of_app. intros [Hx|[Hx|Hx]].
      * right. exists p. split; [left | exact Hx].
      * left. exact Hx.
      * destruct (IH Hx) as [Hs|(r & Hr & Hxr)]; [left; exact Hs|].
        right. exists r. split; [right; exact Hr | exact Hxr].
Qed.

Lemma includes_char_app_sep k v c : includes_char (k ++ c :: v) c = true.
Proof.
  unfold includes_char. rewrite existsb_app. simpl. rewrite N.eqb_refl.
  apply orb_true_iff. right. reflexivity.
Qed.

(** *** What the parser stores *)

Lemma starts_clean_entry_line k v :
  starts_clean k -> starts_clean (k ++ ch_equals :: v).
Proof. destruct k; simpl; [intros _; reflexivity | trivial]. Qed.

Lemma trimmed_entry_line k v :
  trimmed k -> trimmed v -> trimmed (k ++ ch_equals :: v).
Proof.
  intros [Hk _] [_ Hv]. split; [apply starts_clean_entry_line, Hk|].
  rewrite rev_app_distr. simpl. rewrite <- app_assoc. simpl.
  apply starts_clean_entry_line, Hv.
Qed.

Lemma env_line_entry vars k v :
  clean_key k -> clean_value v ->
  env_line vars (k ++ ch_equals :: v) = obj_set k v vars.
Proof.
  intros (Hk & Heq & _ & Hhash) (Hv & _). unfold env_line.
  rewrite (trimmed_trim (k ++ ch_equals :: v)) by (apply trimmed_entry_line; assumption).
  rewrite includes_char_app_sep.
  assert (is_empty (k ++ ch_equals :: v) = false) as -> by (destruct k; reflexivity).
  assert (startsWith_char (k ++ ch_equals :: v) ch_hash = false) as ->
    by (destruct k; [reflexivity | exact Hhash]).
  simpl. rewrite split_on_app by exact Heq.
  rewrite join_split, (trimmed_trim k Hk), (trimmed_trim v Hv). reflexivity.
Qed.

Lemma own_update_clean k v o :
  clean_value v -> Forall clean_entry o -> Forall clean_entry (own_update k v o).
Proof.
  intros Hv. induction 1 as [|[k' v'] o [Hk' Hv'] Ho IH]; simpl; [constructor|].
  case_bool_decide.
  - constructor; [split; assumption | exact Ho].
  - constructor; [split; assumption | exact IH].
Qed.

Lemma obj_set_clean k v o :
  clean_key k -> clean_value v ->
  Forall clean_entry o -> Forall clean_entry (obj_set k v o).
Proof.
  intros Hk Hv Ho. unfold obj_set.
  case_bool_decide; [exact Ho|].
  destruct (has_own o k); [apply own_update_clean; assumption|].
  apply Forall_app. split; [exact Ho|]. constructor; [split; assumption | constructor].
Qed.

Lemma first_piece_clean t p ps :
  starts_clean t -> startsWith_char t ch_hash = false ->
  split_on ch_equals t = p :: ps ->
  startsWith_char (trim p) ch_hash = false.
Proof.
  destruct t as [|x t]; simpl.
  - intros _ _ [= <- <-]. reflexivity.
  - intros Hx Hhash. destruct (x =? ch_equals).
    + intros [= <- <-]. reflexivity.
    + destruct (split_on ch_equals t) as [|q qs]; intros [= <- <-].
      * unfold trim. simpl. rewrite Hx. rewrite trimEnd_cons by exact Hx. exact Hhash.
      * unfold trim. simpl. rewrite Hx. rewrite trimEnd_cons by exact Hx. exact Hhash.
Qed.

Lemma env_line_clean vars line :
  ch_newline ∉ line -> Forall clean_entry vars ->
  Forall clean_entry (env_line vars line).
Proof.
  intros Hnl Hvars. unfold env_line.
  destruct (negb (is_empty (trim line))) eqn:Hne; simpl; [|exact Hvars].
  destruct (negb (startsWith_char (trim line) ch_hash)) eqn:Hhash; simpl; [|exact Hvars].
  destruct (includes_char (trim line) ch_equals); [|exact Hvars].
  destruct (split_on ch_equals (trim line)) as [|key valueParts] eqn:Hsplit; [exact Hvars|].
  apply negb_true_iff in Hhash.
  assert (Hpiece : forall p x, p ∈ key :: valueParts -> x ∈ p ->
                               x ∈ line /\ x <> ch_equals).
  { intros p x Hp Hx. rewrite <- Hsplit in Hp.
    destruct (split_on_elem _ _ _ _ Hp Hx) as [Hin Hneq].
    split; [apply trim_elem, Hin | exact Hneq]. }
  apply obj_set_clean; [| |exact Hvars].
  - split; [apply trim_trimmed|]. split; [|split].
    + intros Hin. apply trim_elem in Hin.
      destruct (Hpiece key ch_equals ltac:(left) Hin) as [_ Hneq]. congruence.
    + intros Hin. apply trim_elem in Hin.
      destruct (Hpiece key ch_newline ltac:(left) Hin) as [Hl _]. exact (Hnl Hl).
    + eapply first_piece_clean; [| exact Hhash | exact Hsplit].
      apply trim_trimmed.
  - split; [apply trim_trimmed|].
    intros Hin. apply trim_elem, join_elem in Hin as [Hin|(p & Hp & Hin)].
    + apply list_elem_of_singleton in Hin. discriminate Hin.
    + destruct (Hpiece p ch_newline ltac:(right; exact Hp) Hin) as [Hl _].
      exact (Hnl Hl).
Qed.

Lemma split_on_pieces c s : Forall (fun p => c ∉ p) (split_on c s).
Proof.
  apply Forall_forall. intros p Hp Hc.
  destruct (split_on_elem c s p c Hp Hc) as [_ Hne]. congruence.
Qed.

Lemma fold_env_line_clean lines vars :
  Forall (fun line => ch_newline ∉ line) lines -> Forall clean_entry vars ->
  Forall clean_entry (fold_left env_line lines vars).
Proof.
  intros Hlines. revert vars.
  induction Hlines as [|line lines Hline Hlines IH]; simpl; intros vars Hvars;
    [exact Hvars|].
  apply IH, env_line_clean; assumption.
Qed.

Lemma parse_env_clean content : Forall clean_entry (parse_env content).
Proof.
  apply fold_env_line_clean; [apply split_on_pieces | constructor].
Qed.

(** *** Writing the variables out and reading them back *)

Lemma entry_line_no_newline e :
  clean_entry e -> ch_newline ∉ env_entry_line e.
Proof.
  destruct e as [k v]. intros [(_ & _ & Hk & _) (_ & Hv)]. simpl.
  rewrite elem_of_app, elem_of_cons. intros [Hin|[Heq|Hin]];
    [exact (Hk Hin) | discriminate Heq | exact (Hv Hin)].
Qed.

Lemma fold_entry_lines (es : obj) (vars : obj) :
  Forall clean_entry es ->
  fold_left env_line (map env_entry_line es) vars
  = fold_left (fun m e => obj_set (fst e) (snd e) m) es vars.
Proof.
  intros Hes. revert vars.
  induction Hes as [|[k v] es [Hk Hv] Hes IH]; simpl; intros vars; [reflexivity|].
  rewrite env_line_entry by assumption. apply IH.
Qed.

Lemma set_fold (es acc : obj) :
  NoDup (acc ++ es).*1 -> js "__proto__" ∉ es.*1 ->
  fold_left (fun m e => obj_set (fst e) (snd e) m) es acc = acc ++ es.
Proof.
  revert acc. induction es as [|[k v] es IH]; intros acc Hnd Hproto; simpl.
  - symmetry. apply app_nil_r.
  - rewrite fmap_cons in Hproto. apply not_elem_of_cons in Hproto as [Hk Hproto].
    rewrite obj_set_fresh; [| intros Heq; apply Hk; symmetry; exact Heq |].
    + rewrite IH; [rewrite <- app_assoc; reflexivity | | exact Hproto].
      rewrite <- app_assoc. exact Hnd.
    + rewrite fmap_app in Hnd. apply NoDup_app in Hnd as (_ & Hdisj & _).
      intros Hin. apply (Hdisj k Hin). csimpl. left.
Qed.

Lemma env_lines_map es : env_lines es = join [ch_newline] (map env_entry_line es).
Proof. reflexivity. Qed.

Lemma parse_env_lines (es : obj) :
  well_formed es -> Forall clean_entry es -> parse_env (env_lines es) = es.
Proof.
  intros [Hnd Hproto] Hes. unfold parse_env. rewrite env_lines_map.
  destruct es as [|e es]; [reflexivity|].
  rewrite split_join; [| discriminate |].
  - rewrite fold_entry_lines by exact Hes. apply (set_fold _ []); assumption.
  - apply Forall_forall. intros line Hline.
    apply list_elem_of_In, in_map_iff in Hline as (e' & <- & He').
    apply entry_line_no_newline.
    rewrite Forall_forall in Hes. apply Hes, list_elem_of_In, He'.
Qed.

Lemma Object_entries_clean o :
  Forall clean_entry o -> Forall clean_entry (Object_entries o).
Proof. rewrite Object_entries_perm. trivial. Qed.

Lemma parse_env_round_trip content :
  parse_env (env_lines (Object_entries (parse_env content)))
  = Object_entries (parse_env content).
Proof.
  apply parse_env_lines.
  - apply Object_entries_well_formed, parse_env_well_formed.
  - apply Object_entries_clean, parse_env_clean.
Qed.



(** ** The shell on [cp] and [rm -f] *)

Lemma plain_no_space s : forallb plain_char s = true -> ch_space ∉ s.
Proof.
  intros Hs Hin. rewrite forallb_forall in Hs.
  apply list_elem_of_In, Hs in Hin. discriminate Hin.
Qed.

Lemma path_word_no_space s : path_word s = true -> ch_space ∉ s.
Proof.
  unfold path_word. rewrite !andb_true_iff. intros [[_ Hs] _].
  apply plain_no_space, Hs.
Qed.

Lemma path_word_under repoPath name :
  forallb plain_char repoPath = true ->
  startsWith_char repoPath 45 = false ->
  forallb plain_char name = true ->
  path_word (repoPath ++ js "/" ++ name) = true.
Proof.
  intros Hrepo Hdash Hname. unfold path_word.
  rewrite !forallb_app, Hrepo, Hname.
  destruct repoPath as [|c repoPath]; simpl in *; [reflexivity|].
  rewrite Hdash. reflexivity.
Qed.

Lemma words_cp a b :
  ch_space ∉ a -> ch_space ∉ b ->
  split_on ch_space (js "cp " ++ a ++ js " " ++ b) = [js "cp"; a; b].
Proof.
  intros Ha Hb.
  change (js "cp " ++ a ++ js " " ++ b)
    with (js "cp" ++ ch_space :: (a ++ ch_space :: b)).
  rewrite split_on_app.
  - rewrite split_on_app by exact Ha. rewrite split_on_whole by exact Hb.
    reflexivity.
  - intros Hin. absurd_member Hin.
Qed.

Lemma words_rm_f a :
  ch_space ∉ a ->
  split_on ch_space (js "rm -f " ++ a) = [js "rm"; js "-f"; a].
Proof.
  intros Ha.
  change (js "rm -f " ++ a) with (js "rm" ++ ch_space :: (js "-f" ++ ch_space :: a)).
  rewrite split_on_app.
  - rewrite split_on_app.
    + rewrite split_on_whole by exact Ha. reflexivity.
    + intros Hin. absurd_member Hin.
  - intros Hin. absurd_member Hin.
Qed.

Section Shell.
Context `{Platform}.

Lemma sh_cp_command a b w :
  path_word a = true -> path_word b = true ->
  sh (js "cp " ++ a ++ js " " ++ b) w = sh_cp a b (files w).
Proof.
  intros Ha Hb. unfold sh.
  rewrite words_cp by (apply path_word_no_space; assumption).
  rewrite Ha, Hb. reflexivity.
Qed.

Lemma sh_rm_f_command a w :
  path_word a = true -> sh (js "rm -f " ++ a) w = sh_rm_f a (files w).
Proof.
  intros Ha. unfold sh.
  rewrite words_rm_f by (apply path_word_no_space; assumption).
  rewrite Ha. reflexivity.
Qed.

(** A [cp] that succeeded has copied an existing file onto another path. *)
Lemma runCommand_cp_Ok a b w v w' :
  path_word a = true -> path_word b = true ->
  runCommand (js "cp " ++ a ++ js " " ++ b) w = (Ok v, w') ->
  exists content,
    files w !! a = Some content /\ a <> b
    /\ files w' = <[b := content]> (files w).
Proof.
  intros Ha Hb. unfold runCommand.
  rewrite sh_cp_command by assumption. unfold sh_cp. simpl.
  case_bool_decide as Hab; [discriminate|].
  destruct (files w !! a) as [content|]; [|discriminate].
  intros [= _ <-]. exists content. repeat split; [exact Hab].
Qed.

(** An [rm -f] leaves no file at its operand. *)
Lemma runCommand_rm_f_Ok a w v w' :
  path_word a = true ->
  runCommand (js "rm -f " ++ a) w = (Ok v, w') ->
  files w' = delete a (files w).
Proof.
  intros Ha. unfold runCommand.
  rewrite sh_rm_f_command by assumption. unfold sh_rm_f. simpl.
  intros [= _ <-]. reflexivity.
Qed.
End Shell.

(** ** Single-container installation *)

Section SingleContainer.
Context `{Platform}.

End SingleContainer.


(** Scenario C of the specification: a checkout with only a Dockerfile,
    installed as a single container, ends with the working env equal to the
    example-env content and without the temporary file. *)
Example single_container_scenario_C :
  fst (installDockerService (H := quiet_platform) (ConfigObj sample_config)
         (js "/workspace/demo") checkout_world) = Ok tt
  /\ files (snd (installDockerService (H := quiet_platform)
                   (ConfigObj sample_config) (js "/workspace/demo")
                   checkout_world)) !! js "/workspace/demo/.env"
     = Some (js "A=1")
  /\ files (snd (installDockerService (H := quiet_platform)
                   (ConfigObj sample_config) (js "/workspace/demo")
                   checkout_world)) !! js "/workspace/demo/.env.temp"
     = None.
Proof. vm_compute. repeat split; reflexivity. Qed.

(** Scenario B of the specification: with [docker-compose.yml] and
    [Dockerfile] both present the compose command runs and no image is
    built from the Dockerfile. *)
Example compose_scenario_B :
  fst (installDockerComposeService (H := quiet_platform)
         (ConfigObj sample_config) (js "/workspace/demo") compose_world) = Ok tt
  /\ js "cd /workspace/demo && docker-compose up -d --build"
     ∈ spawned (snd (installDockerComposeService (H := quiet_platform)
                       (ConfigObj sample_config) (js "/workspace/demo")
                       compose_world))
  /\ js "docker build -t demo-image /workspace/demo"
     ∉ spawned (snd (installDockerComposeService (H := quiet_platform)
                       (ConfigObj sample_config) (js "/workspace/demo")
                       compose_world)).
Proof.
  vm_compute. split; [reflexivity|]. split.
  - do 3 right. left.
  - intros Hin. absurd_member Hin.
Qed.

(** ** InstallationOrchestrator *)

Section Orchestrator.
Context `{Platform}.

(** A request without a solution type, with an empty one, or with one
    that is neither a key of the registry nor a name the registry object
    inherits, fails before any command is spawned. *)
Lemma unresolved_type_spawns_nothing (req : Request) (w : World) :
  match req_solutionType req with
  | None => True
  | Some solutionType =>
      is_empty solutionType = true \/ registry_get solutionType = None
  end ->
  exists e w',
    installWithProgress req w = (Throw e, w')
    /\ spawned w' = spawned w /\ files w' = files w.
Proof.
  intros Hreq. unfold installWithProgress. rewrite try_catch_unfold.
  destruct (req_solutionType req) as [solutionType|].
  - destruct (is_empty solutionType) eqn:Hempty.
    + eexists _, _. split; [reflexivity | split; reflexivity].
    + destruct Hreq as [Hreq|Hreq]; [discriminate Hreq|].
      rewrite Hreq. eexists _, _. split; [reflexivity | split; reflexivity].
  - eexists _, _. split; [reflexivity | split; reflexivity].
Qed.
End Orchestrator.

(** C8, the run on a failing input.  The solution type [constructor] is
    not a key of the registry, yet [SOLUTION_CONFIGS["constructor"]] is the
    function every object inherits, which passes the [!config] test: the
    installer removes [/workspace/undefined], attempts the clone and the
    container cleanup, and only then fails, with "Unsupported installation
    type: undefined". *)
Theorem inherited_name_reaches_shell :
  SOLUTION_CONFIGS (Platform := quiet_platform) !! js "constructor" = None
  /\ spawned (snd (installWithProgress (H := quiet_platform)
                     {| body := Some (Some (js "constructor")) |} empty_world))
     = [js "rm -rf /workspace/undefined";
        js "git clone -b undefined undefined /workspace/undefined";
        js "docker rm -f undefined || true"]
  /\ fst (installWithProgress (H := quiet_platform)
            {| body := Some (Some (js "constructor")) |} empty_world)
     = Throw (new_Error (js "Unsupported installation type: undefined")).
Proof. vm_compute. repeat split; reflexivity. Qed.

(** The same request on a shell where every external command fails: the
    error that reaches the caller is the failure of [rm -rf]. *)
Example inherited_name_fails_in_shell :
  spawned (snd (installWithProgress (H := failing_platform)
                  {| body := Some (Some (js "constructor")) |} empty_world))
  = [js "rm -rf /workspace/undefined"]
  /\ fst (installWithProgress (H := failing_platform)
            {| body := Some (Some (js "constructor")) |} empty_world)
     = Throw (new_Error (js "Command failed: rm -rf /workspace/undefined")).
Proof. vm_compute. split; reflexivity. Qed.

(** Scenario D of the specification, for a type that no object inherits. *)
Example unknown_type_scenario_D :
  installWithProgress (H := quiet_platform)
    {| body := Some (Some (js "nosuch")) |} empty_world
  = (Throw (new_Error (js "Unknown solution type: nosuch")),
     {| files := ∅;
        console := [(Stderr, [LStr ([10060] ++ js " Installation failed: Unknown solution type: nosuch")]);
                    (Stderr, [LStr (js "Error - solutionInstallWithProgress");
                              LErr (new_Error (js "Unknown solution type: nosuch"))])];
        spawned := [] |}).
Proof. vm_compute. reflexivity. Qed.

(** ** The theorems at concrete inputs *)

Lemma runCommand_settles_witness :
  child_outcome (H := failing_platform) (js "docker build .") empty_world
  = Exited (Some 1%Z)
  /\ fst (runCommand (H := failing_platform) (js "docker build .") empty_world)
     = Throw (new_Error (js "Command failed: docker build .")).
Proof.
  split; [reflexivity|].
  destruct (runCommand_settles (H := failing_platform) (js "docker build .")
              empty_world) as (_ & _ & Hfail & _).
  apply (Hfail (Some 1%Z)); [reflexivity | discriminate].
Defined.

Lemma detect_compose_descriptor_witness :
  exists s,
    detectRepoStructure (H := quiet_platform) (js "/workspace/demo")
      third_name_world = (Ok s, third_name_world)
    /\ hasDockerCompose s = true
    /\ composeFile s = Some (js "compose.yml").
Proof.
  destruct (detect_compose_descriptor (H := quiet_platform)
              (js "/workspace/demo") third_name_world)
    as (_ & s & Hrun & _ & Honly & _).
  exists s. split; [exact Hrun|].
  apply (Honly (js "compose.yml")).
  - right. right. left. reflexivity.
  - exists (js "services:"). vm_compute. reflexivity.
  - intros g Hg Hne [content Hpresent].
    destruct Hg as [<-|[<-|[<-|[<-|[]]]]];
      try (vm_compute in Hpresent; discriminate Hpresent).
    apply Hne. reflexivity.
Defined.


Lemma merge_output_witness :
  has_own (env_at checkout_world (js "/workspace/.env")) (js "hasOwnProperty")
  = false
  /\ exists mergedVars w',
      mergeEnvironmentFiles (js "/workspace/.env")
        (js "/workspace/demo/.env.example") (js "/workspace/demo/.env.temp")
        checkout_world = (Ok mergedVars, w')
      /\ env_content mergedVars = js "SECRET=42" ++ [ch_newline] ++ js "A=1".
Proof.
  split; [reflexivity|].
  destruct (merge_output (js "/workspace/.env")
              (js "/workspace/demo/.env.example")
              (js "/workspace/demo/.env.temp") checkout_world)
    as (mergedVars & w' & Hrun & _ & _ & Horder); [reflexivity|].
  exists mergedVars, w'. split; [exact Hrun|].
  rewrite Horder; [vm_compute; reflexivity|].
  intros k v Hin. vm_compute in Hin.
  apply list_elem_of_singleton in Hin. injection Hin as -> _. reflexivity.
Defined.




(* ===================================================================== *)
(** * Further properties *)
(* ===================================================================== *)

(** ** The parser of env files *)

(** *** More on trimming *)

Lemma trimStart_idem s : trimStart (trimStart s) = trimStart s.
Proof. apply trimStart_clean, starts_clean_trimStart. Qed.

Lemma trimEnd_idem s : trimEnd (trimEnd s) = trimEnd s.
Proof.
  unfold trimEnd. rewrite rev_involutive, trimStart_idem. reflexivity.
Qed.

Lemma trimStart_before c k v :
  is_ws c = false -> trimStart (k ++ c :: v) = trimStart k ++ c :: v.
Proof.
  intros Hc. induction k as [|x k IH]; simpl.
  - rewrite Hc. reflexivity.
  - destruct (is_ws x); [exact IH | reflexivity].
Qed.

Lemma trimEnd_after c k v :
  is_ws c = false -> trimEnd (k ++ c :: v) = k ++ c :: trimEnd v.
Proof.
  intros Hc. unfold trimEnd. rewrite rev_app_distr. simpl.
  rewrite <- app_assoc. simpl. rewrite trimStart_before by exact Hc.
  rewrite rev_app_distr. simpl. rewrite rev_involutive, <- app_assoc.
  reflexivity.
Qed.

Lemma trimStart_snoc_ws l c :
  is_ws c = true ->
  trimStart (l ++ [c]) = match trimStart l with [] => [] | _ => trimStart l ++ [c] end.
Proof.
  intros Hc. induction l as [|x l IH]; simpl.
  - rewrite Hc. reflexivity.
  - destruct (is_ws x) eqn:Hx; [exact IH | reflexivity].
Qed.

Lemma trimEnd_cons_ws c s :
  is_ws c = true ->
  trimEnd (c :: s) = match trimEnd s with [] => [] | _ => c :: trimEnd s end.
Proof.
  intros Hc. unfold trimEnd. simpl. rewrite trimStart_snoc_ws by exact Hc.
  destruct (trimStart (rev s)) as [|y t]; simpl; [reflexivity|].
  rewrite rev_app_distr. simpl.
  destruct (rev t ++ [y]) eqn:Hrev; [destruct (rev t); discriminate|].
  reflexivity.
Qed.

Lemma trim_ends_commute s : trimStart (trimEnd s) = trimEnd (trimStart s).
Proof.
  induction s as [|c s IH]; [reflexivity|].
  simpl. destruct (is_ws c) eqn:Hc.
  - rewrite trimEnd_cons_ws by exact Hc.
    destruct (trimEnd s) as [|y t] eqn:Hend.
    + simpl in *. exact IH.
    + simpl. rewrite Hc. exact IH.
  - rewrite trimEnd_cons by exact Hc. simpl. rewrite Hc. reflexivity.
Qed.

Lemma trim_trimStart s : trim (trimStart s) = trim s.
Proof. unfold trim. rewrite trimStart_idem. reflexivity. Qed.

Lemma trim_trimEnd s : trim (trimEnd s) = trim s.
Proof. unfold trim. rewrite trim_ends_commute, trimEnd_idem. reflexivity. Qed.

Lemma trim_around c k v :
  is_ws c = false -> trim (k ++ c :: v) = trimStart k ++ c :: trimEnd v.
Proof.
  intros Hc. unfold trim. rewrite trimStart_before by exact Hc.
  apply trimEnd_after, Hc.
Qed.

Lemma trimStart_no_sep c s : c ∉ s -> c ∉ trimStart s.
Proof. intros Hs Hin. apply Hs, trimStart_elem, Hin. Qed.

(** *** Lines of a file *)

Lemma split_on_snoc c s line :
  c ∉ line -> split_on c (s ++ c :: line) = split_on c s ++ [line].
Proof.
  intros Hline. induction s as [|x s IH]; simpl.
  - rewrite N.eqb_refl, split_on_whole by exact Hline. reflexivity.
  - destruct (x =? c); [rewrite IH; reflexivity|].
    rewrite IH. destruct (split_on c s) as [|p ps] eqn:Hsplit;
      [destruct (split_on_not_nil c s Hsplit) | reflexivity].
Qed.

Lemma parse_env_snoc content line :
  ch_newline ∉ line ->
  parse_env (content ++ ch_newline :: line) = env_line (parse_env content) line.
Proof.
  intros Hline. unfold parse_env. rewrite split_on_snoc by exact Hline.
  rewrite fold_left_app. reflexivity.
Qed.

Lemma env_line_assignment vars k v :
  ch_equals ∉ k ->
  env_line vars (k ++ ch_equals :: v)
  = if startsWith_char (trimStart k) ch_hash then vars
    else obj_set (trim k) (trim v) vars.
Proof.
  intros Hk. unfold env_line.
  rewrite (trim_around ch_equals) by reflexivity.
  rewrite includes_char_app_sep, andb_true_r.
  assert (is_empty (trimStart k ++ ch_equals :: trimEnd v) = false) as ->
    by (destruct (trimStart k); reflexivity).
  assert (startsWith_char (trimStart k ++ ch_equals :: trimEnd v) ch_hash
          = startsWith_char (trimStart k) ch_hash) as ->
    by (destruct (trimStart k); reflexivity).
  simpl. destruct (startsWith_char (trimStart k) ch_hash); simpl; [reflexivity|].
  rewrite split_on_app by (apply trimStart_no_sep, Hk).
  rewrite join_split, trim_trimStart, trim_trimEnd. reflexivity.
Qed.

Lemma env_line_skip vars line :
  is_assignment_line line = false -> env_line vars line = vars.
Proof.
  unfold is_assignment_line, env_line. intros ->. reflexivity.
Qed.

Lemma own_get_own_update k v o k' :
  own_get (own_update k v o) k'
  = if bool_decide (k' = k) then (if has_own o k then Some v else None)
    else own_get o k'.
Proof.
  unfold has_own. induction o as [|[k0 v0] o IH]; simpl.
  - case_bool_decide; reflexivity.
  - destruct (bool_decide (k0 = k)) eqn:Hk0; simpl.
    + apply bool_decide_eq_true in Hk0. subst k0.
      destruct (bool_decide (k = k')) eqn:Hkk'; simpl.
      * apply bool_decide_eq_true in Hkk'. subst k'.
        rewrite bool_decide_eq_true_2 by reflexivity. reflexivity.
      * apply bool_decide_eq_false in Hkk'.
        rewrite bool_decide_eq_false_2 by congruence. reflexivity.
    + apply bool_decide_eq_false in Hk0.
      destruct (bool_decide (k0 = k')) eqn:Hk0'; simpl.
      * apply bool_decide_eq_true in Hk0'. subst k'.
        rewrite bool_decide_eq_false_2 by congruence. reflexivity.
      * exact IH.
Qed.

Lemma own_get_obj_set k v o k' :
  k <> js "__proto__" ->
  own_get (obj_set k v o) k'
  = if bool_decide (k' = k) then Some v else own_get o k'.
Proof.
  intros Hk. unfold obj_set. rewrite bool_decide_eq_false_2 by exact Hk.
  destruct (has_own o k) eqn:Hown.
  - rewrite own_get_own_update, Hown. reflexivity.
  - rewrite own_get_app. simpl.
    case_bool_decide as Hk'.
    + subst k'. unfold has_own in Hown.
      destruct (own_get o k); [discriminate|].
      rewrite bool_decide_eq_true_2 by reflexivity. reflexivity.
    + rewrite bool_decide_eq_false_2 by congruence.
      destruct (own_get o k'); reflexivity.
Qed.

Lemma parse_env_join (lines : list jsstring) :
  Forall (fun line => ch_newline ∉ line) lines ->
  parse_env (join [ch_newline] lines) = fold_left env_line lines [].
Proof.
  intros Hlines. destruct lines as [|line lines]; [reflexivity|].
  unfold parse_env. rewrite split_join; [reflexivity | discriminate | exact Hlines].
Qed.

Lemma fold_env_line_filter (lines : list jsstring) (vars : obj) :
  fold_left env_line (filter (fun line => is_assignment_line line = true) lines) vars
  = fold_left env_line lines vars.
Proof.
  revert vars. induction lines as [|line lines IH]; intros vars; [reflexivity|].
  destruct (is_assignment_line line) eqn:Hline.
  - rewrite filter_cons_True by exact Hline. simpl. apply IH.
  - rewrite filter_cons_False by congruence. simpl.
    rewrite env_line_skip by exact Hline. apply IH.
Qed.

(** X1.  Appending a line [KEY=VALUE] to an env file, where [KEY] has no
    [=] and neither part has a newline: when the first character of the
    line that is not white space is [#], or the trimmed key is [__proto__],
    the parsed variables do not change; otherwise the trimmed key reads the
    trimmed value, which may itself contain [=], whatever the key was
    bound to before, and every other variable reads as before. *)
Theorem parse_appended_assignment (content k v : jsstring) :
  ch_equals ∉ k -> ch_newline ∉ k -> ch_newline ∉ v ->
  (startsWith_char (trimStart k) ch_hash = true ->
   parse_env (content ++ ch_newline :: k ++ ch_equals :: v) = parse_env content)
  /\ (trim k = js "__proto__" ->
      parse_env (content ++ ch_newline :: k ++ ch_equals :: v) = parse_env content)
  /\ (startsWith_char (trimStart k) ch_hash = false ->
      trim k <> js "__proto__" ->
      forall k',
        own_get (parse_env (content ++ ch_newline :: k ++ ch_equals :: v)) k'
        = if bool_decide (k' = trim k) then Some (trim v)
          else own_get (parse_env content) k').
Proof.
  intros Heq Hk Hv.
  assert (Hline : ch_newline ∉ k ++ ch_equals :: v).
  { rewrite elem_of_app, elem_of_cons.
    intros [Hin|[Hin|Hin]]; [exact (Hk Hin) | discriminate Hin | exact (Hv Hin)]. }
  rewrite parse_env_snoc by exact Hline.
  rewrite env_line_assignment by exact Heq.
  split; [|split].
  - intros ->. reflexivity.
  - intros Hproto. destruct (startsWith_char (trimStart k) ch_hash); [reflexivity|].
    unfold obj_set. rewrite bool_decide_eq_true_2 by exact Hproto. reflexivity.
  - intros -> Hproto k'. apply own_get_obj_set, Hproto.
Qed.

(** X2.  Lines that are blank, start with [#] after trimming, or contain
    no [=] can be deleted from an env file without changing what is parsed
    from it. *)
Theorem parse_ignores_other_lines (lines : list jsstring) :
  Forall (fun line => ch_newline ∉ line) lines ->
  parse_env (join [ch_newline] lines)
  = parse_env (join [ch_newline]
                 (filter (fun line => is_assignment_line line = true) lines)).
Proof.
  intros Hlines. rewrite !parse_env_join.
  - symmetry. apply fold_env_line_filter.
  - apply Forall_forall. intros line Hin.
    apply list_elem_of_filter in Hin as [_ Hin].
    rewrite Forall_forall in Hlines. apply Hlines, Hin.
  - exact Hlines.
Qed.

(** X3.  Whatever the content, the parsed variables have pairwise
    different keys; no key is [__proto__], contains [=] or a newline, or
    starts with [#]; keys and values carry no white space at either end and
    values contain no newline. *)
Theorem parsed_variables_invariant (content : jsstring) :
  NoDup (parse_env content).*1
  /\ forall k v, (k, v) ∈ parse_env content ->
       k <> js "__proto__"
       /\ trim k = k /\ trim v = v
       /\ (ch_equals ∉ k) /\ (ch_newline ∉ k) /\ (ch_newline ∉ v)
       /\ startsWith_char k ch_hash = false.
Proof.
  destruct (parse_env_well_formed content) as [Hnd Hproto].
  split; [exact Hnd|]. intros k v Hin.
  pose proof (parse_env_clean content) as Hclean.
  rewrite Forall_forall in Hclean.
  destruct (Hclean _ Hin) as [(Hk & Heq & Hnl & Hhash) (Hv & Hvnl)]. simpl in *.
  split.
  - intros ->. apply Hproto. apply (list_elem_of_fmap_2 fst) in Hin. exact Hin.
  - split; [apply trimmed_trim, Hk|]. split; [apply trimmed_trim, Hv|].
    repeat split; assumption.
Qed.

Lemma keep_local_only_well_formed r l keys acc :
  well_formed acc -> well_formed (fold_left (keep_local_only r l) keys acc).
Proof.
  revert acc. induction keys as [|key keys IH]; intros acc Hacc; simpl; [exact Hacc|].
  apply IH. unfold keep_local_only.
  destruct (negb (has_own r key)); [apply obj_set_well_formed, Hacc | exact Hacc].
Qed.

Lemma merged_well_formed r l :
  well_formed r -> well_formed l ->
  well_formed (Object_entries r ++ local_only r l).
Proof.
  intros Hr Hl. rewrite <- merged_entries by assumption.
  apply keep_local_only_well_formed.
  rewrite copy_root_entries by exact Hr. apply Object_entries_well_formed, Hr.
Qed.

Lemma merged_clean r l :
  Forall clean_entry r -> Forall clean_entry l ->
  Forall clean_entry (Object_entries r ++ local_only r l).
Proof.
  intros Hr Hl. apply Forall_app. split; [apply Object_entries_clean, Hr|].
  apply Object_entries_clean in Hl. rewrite Forall_forall in Hl.
  apply Forall_forall. intros e He.
  apply list_elem_of_filter in He as [_ He]. apply Hl, He.
Qed.

Lemma env_at_clean w p : Forall clean_entry (env_at w p).
Proof.
  unfold env_at. destruct (files w !! p); [apply parse_env_clean | constructor].
Qed.

(** X4.  When the root variables have no key named [hasOwnProperty], the
    file the merge writes parses back to exactly the merged variables: the
    same keys in the same enumeration order, each with the same value. *)
Theorem merge_output_reads_back (rootPath localPath outputPath : jsstring)
  (w : World) :
  has_own (env_at w rootPath) (js "hasOwnProperty") = false ->
  exists mergedVars w',
    mergeEnvironmentFiles rootPath localPath outputPath w = (Ok mergedVars, w')
    /\ env_at w' outputPath = Object_entries mergedVars
    /\ forall k, own_get (env_at w' outputPath) k = own_get mergedVars k.
Proof.
  intros Hroot. eexists _, _.
  split; [apply mergeEnvironmentFiles_run, Hroot|].
  set (m := Object_entries (env_at w rootPath)
            ++ local_only (env_at w rootPath) (env_at w localPath)).
  assert (Hwf : well_formed m)
    by (apply merged_well_formed; apply env_at_well_formed).
  assert (Hclean : Forall clean_entry m)
    by (apply merged_clean; apply env_at_clean).
  assert (Hread : env_at {| files := <[outputPath := env_content m]> (files w);
                            console := console w ++ [merged_log m];
                            spawned := spawned w |} outputPath
                  = Object_entries m).
  { unfold env_at. simpl. rewrite lookup_insert_eq, env_content_lines.
    apply parse_env_lines;
      [apply Object_entries_well_formed, Hwf | apply Object_entries_clean, Hclean]. }
  split; [exact Hread|].
  intros k. rewrite Hread. apply own_get_perm.
  - apply Object_entries_well_formed, Hwf.
  - apply Object_entries_perm.
Qed.

Lemma Object_keys_nil (l : obj) : Object_keys l = [] -> l = [].
Proof.
  unfold Object_keys. intros Hkeys. apply fmap_nil_inv in Hkeys.
  apply Permutation_nil_r. rewrite <- Hkeys. symmetry. apply Object_entries_perm.
Qed.


(** ** Probing for and installing the compose tool *)

Section Runner.
Context `{Platform}.

Lemma runCommand_run command w :
  exists w1,
    runCommand command w = (settle command (child_outcome command w), w1)
    /\ spawned w1 = spawned w ++ [command]
    /\ console w1 = console w.
Proof.
  unfold runCommand, child_outcome.
  destruct (sh command _) as [outcome fs]. eexists. split; [reflexivity|].
  split; reflexivity.
Qed.

Lemma settle_Ok command outcome v :
  settle command outcome = Ok v <-> outcome = Exited (Some 0%Z) /\ v = js "success".
Proof.
  destruct outcome as [code|error]; simpl.
  - case_bool_decide as Hcode.
    + subst code. split; [intros [= <-]; split; reflexivity | intros [_ ->]; reflexivity].
    + split; [discriminate | intros [Hc _]; congruence].
  - split; [discriminate | intros [Hc _]; discriminate Hc].
Qed.

Lemma settle_cases command outcome :
  (outcome = Exited (Some 0%Z) /\ settle command outcome = Ok (js "success"))
  \/ (outcome <> Exited (Some 0%Z) /\ exists e, settle command outcome = Throw e).
Proof.
  destruct outcome as [code|error]; simpl.
  - case_bool_decide as Hcode.
    + subst code. left. split; reflexivity.
    + right. split; [congruence | eauto].
  - right. split; [discriminate | eauto].
Qed.

(** X6.  [isDockerComposeAvailable] never throws.  When
    [docker-compose --version] exits with code 0 the answer is [true] and
    nothing else is spawned; otherwise [docker compose version] is spawned
    as well, and the answer is [true] exactly when that one exits with
    code 0. *)
Theorem compose_probe_never_throws (w : World) :
  exists available w',
    isDockerComposeAvailable w = (Ok available, w')
    /\ (child_outcome (js "docker-compose --version") w = Exited (Some 0%Z) ->
        available = true
        /\ spawned w' = spawned w ++ [js "docker-compose --version"])
    /\ (child_outcome (js "docker-compose --version") w <> Exited (Some 0%Z) ->
        spawned w' = spawned w ++ [js "docker-compose --version";
                                   js "docker compose version"]
        /\ (available = true
            <-> child_outcome (js "docker compose version")
                  (snd (runCommand (js "docker-compose --version") w))
                = Exited (Some 0%Z))).
Proof.
  unfold isDockerComposeAvailable. rewrite try_catch_unfold, bind_unfold.
  destruct (runCommand_run (js "docker-compose --version") w)
    as (w1 & Hrun1 & Hspawned1 & _).
  rewrite Hrun1. simpl snd.
  destruct (settle_cases (js "docker-compose --version")
              (child_outcome (js "docker-compose --version") w))
    as [[Hout ->]|[Hout [e ->]]].
  - eexists _, _. split; [reflexivity|]. split.
    + intros _. split; [reflexivity | exact Hspawned1].
    + intros Hne. destruct (Hne Hout).
  - rewrite try_catch_unfold, bind_unfold.
    destruct (runCommand_run (js "docker compose version") w1)
      as (w2 & Hrun2 & Hspawned2 & _).
    rewrite Hrun2.
    assert (Hspawned : spawned w2 = spawned w ++ [js "docker-compose --version";
                                                  js "docker compose version"]).
    { rewrite Hspawned2, Hspawned1, <- app_assoc. reflexivity. }
    destruct (settle_cases (js "docker compose version")
                (child_outcome (js "docker compose version") w1))
      as [[Hout2 ->]|[Hout2 [e2 ->]]].
    + eexists _, _. split; [reflexivity|]. split; [intros Hc; destruct (Hout Hc)|].
      intros _. split; [exact Hspawned|]. split; [intros _; exact Hout2 | reflexivity].
    + eexists _, _. split; [reflexivity|]. split; [intros Hc; destruct (Hout Hc)|].
      intros _. split; [exact Hspawned|].
      split; [discriminate | intros Hc; destruct (Hout2 Hc)].
Qed.

(** X7.  [installDockerCompose] never throws.  It spawns the download
    command and nothing else, and the last line it prints tells whether the
    command exited with code 0 or the failure was passed over. *)
Theorem compose_install_never_throws (w : World) :
  exists w',
    installDockerCompose w = (Ok tt, w')
    /\ spawned w' = spawned w ++ [install_compose_command]
    /\ (child_outcome install_compose_command
          (snd (console_log
                  [LStr ([55357; 56550] ++ js " Installing Docker Compose...")] w))
        = Exited (Some 0%Z) ->
        last (console w')
        = Some (Stdout, [LStr ([9989] ++ js " Docker Compose installed successfully")]))
    /\ (child_outcome install_compose_command
          (snd (console_log
                  [LStr ([55357; 56550] ++ js " Installing Docker Compose...")] w))
        <> Exited (Some 0%Z) ->
        last (console w')
        = Some (Stdout, [LStr ([9888; 65039]
                   ++ js " Docker Compose installation failed, continuing with fallback...")])).
Proof.
  unfold installDockerCompose. rewrite try_catch_unfold, bind_unfold, console_log_run.
  set (w0 := mkWorld _ _ _). rewrite bind_unfold.
  fold install_compose_command.
  destruct (runCommand_run install_compose_command w0)
    as (w1 & Hrun & Hspawned & Hconsole).
  rewrite Hrun.
  destruct (settle_cases install_compose_command
              (child_outcome install_compose_command w0))
    as [[Hout ->]|[Hout [e ->]]].
  - rewrite console_log_run. eexists. split; [reflexivity|]. simpl.
    split; [exact Hspawned|]. split; [intros _; apply last_snoc|].
    intros Hne. destruct (Hne Hout).
  - rewrite console_log_run. eexists. split; [reflexivity|]. simpl.
    split; [exact Hspawned|]. split; [intros Hc; destruct (Hout Hc)|].
    intros _. apply last_snoc.
Qed.

End Runner.

(** ** The list of spawned commands *)

Lemma appends_ret {A : Type} (a : A) : appends_commands (mret a : M A).
Proof. intros w. exists []. symmetry. apply app_nil_r. Qed.

Lemma appends_throw {A : Type} (e : Error) : appends_commands (throw e : M A).
Proof. intros w. exists []. symmetry. apply app_nil_r. Qed.

Lemma appends_bind {A B : Type} (m : M A) (k : A -> M B) :
  appends_commands m -> (forall a, appends_commands (k a)) ->
  appends_commands (m ≫= k).
Proof.
  intros Hm Hk w. rewrite bind_unfold. destruct (Hm w) as [more1 H1].
  destruct (m w) as [[a|e] w1]; simpl in *.
  - destruct (Hk a w1) as [more2 H2]. exists (more1 ++ more2).
    rewrite H2, H1, app_assoc. reflexivity.
  - exists more1. exact H1.
Qed.

Lemma appends_try_catch {A : Type} (body : M A) (handler : Error -> M A) :
  appends_commands body -> (forall e, appends_commands (handler e)) ->
  appends_commands (try_catch body handler).
Proof.
  intros Hb Hh w. rewrite try_catch_unfold. destruct (Hb w) as [more1 H1].
  destruct (body w) as [[a|e] w1]; simpl in *.
  - exists more1. exact H1.
  - destruct (Hh e w1) as [more2 H2]. exists (more1 ++ more2).
    rewrite H2, H1, app_assoc. reflexivity.
Qed.

Lemma appends_console_log args : appends_commands (console_log args).
Proof. intros w. exists []. symmetry. apply app_nil_r. Qed.

Lemma appends_console_error args : appends_commands (console_error args).
Proof. intros w. exists []. symmetry. apply app_nil_r. Qed.

Lemma appends_existsSync p : appends_commands (existsSync p).
Proof. intros w. exists []. symmetry. apply app_nil_r. Qed.

Lemma appends_merge rootPath localPath outputPath :
  appends_commands (mergeEnvironmentFiles rootPath localPath outputPath).
Proof.
  intros w. exists []. rewrite app_nil_r.
  apply (merge_frame rootPath localPath outputPath w).
Qed.

Section Appends.
Context `{Platform}.

Lemma appends_runCommand command : appends_commands (runCommand command).
Proof. intros w. exists [command]. apply runCommand_spawned. Qed.

Lemma appends_report error context : appends_commands (report error context).
Proof. intros w. exists []. symmetry. apply app_nil_r. Qed.

Lemma appends_check_compose repoPath candidates structure :
  appends_commands (check_compose repoPath candidates structure).
Proof.
  intros w. exists []. rewrite check_compose_run, app_nil_r. reflexivity.
Qed.

Lemma appends_detect repoPath : appends_commands (detectRepoStructure repoPath).
Proof.
  intros w. exists []. rewrite detectRepoStructure_run, app_nil_r. reflexivity.
Qed.

Lemma appends_stop_ports ports : appends_commands (stop_ports ports).
Proof.
  induction ports as [|port ports IH]; simpl; [apply appends_ret|].
  apply appends_bind; [apply appends_runCommand | intros _; exact IH].
Qed.

Ltac appends :=
  repeat first
    [ apply appends_ret | apply appends_throw | apply appends_console_log
    | apply appends_console_error | apply appends_runCommand
    | apply appends_merge | apply appends_detect | apply appends_report
    | apply appends_stop_ports
    | apply appends_bind; [|intros ?]
    | apply appends_try_catch; [|intros ?]
    | match goal with |- appends_commands (if ?b then _ else _) => destruct b end
    | match goal with |- appends_commands (match ?o with Some _ => _ | None => _ end) =>
        destruct o end ].

Lemma appends_cleanup config : appends_commands (cleanupExistingContainers config).
Proof. unfold cleanupExistingContainers. appends. Qed.

Lemma appends_probe : appends_commands isDockerComposeAvailable.
Proof. unfold isDockerComposeAvailable. appends. Qed.

Lemma appends_install_compose : appends_commands installDockerCompose.
Proof. unfold installDockerCompose. appends. Qed.

Lemma appends_installDockerService config repoPath :
  appends_commands (installDockerService config repoPath).
Proof. unfold installDockerService. appends. Qed.

Lemma appends_installDockerComposeService config repoPath :
  appends_commands (installDockerComposeService config repoPath).
Proof.
  unfold installDockerComposeService.
  repeat first [ apply appends_probe | apply appends_install_compose
               | apply appends_installDockerService | progress appends ].
Qed.

End Appends.

(** Settles [appends_commands] goals over the installer's functions. *)
Ltac appends_all :=
  repeat first
    [ apply appends_ret | apply appends_throw | apply appends_console_log
    | apply appends_console_error | apply appends_runCommand
    | apply appends_merge | apply appends_detect | apply appends_report
    | apply appends_stop_ports | apply appends_cleanup | apply appends_probe
    | apply appends_install_compose | apply appends_installDockerService
    | apply appends_installDockerComposeService
    | apply appends_bind; [|intros ?]
    | apply appends_try_catch; [|intros ?]
    | match goal with |- appends_commands (if ?b then _ else _) => destruct b end
    | match goal with |- appends_commands (match ?o with Some _ => _ | None => _ end) =>
        destruct o end ].

(** ** Cleanup and the two installers *)

Section Installer.
Context `{Platform}.

Lemma stop_ports_commands ports w :
  exists n,
    (n <= length ports)%nat
    /\ spawned (snd (stop_ports ports w))
       = spawned w ++ map stop_port_command (take n ports)
    /\ (forall u, fst (stop_ports ports w) = Ok u -> n = length ports).
Proof.
  revert w. induction ports as [|port ports IH]; intros w.
  - exists 0%nat. split; [reflexivity|]. split; [symmetry; apply app_nil_r | reflexivity].
  - cbn [stop_ports]. fold (stop_port_command port). rewrite bind_unfold.
    destruct (runCommand_run (stop_port_command port) w) as (w1 & Hrun & Hsp & _).
    rewrite Hrun.
    destruct (settle_cases (stop_port_command port)
                (child_outcome (stop_port_command port) w)) as [[_ ->]|[_ [e ->]]].
    + destruct (IH w1) as (n & Hn & Hspawned & Hall). exists (S n).
      split; [simpl; lia|]. split.
      * rewrite Hspawned, Hsp, <- app_assoc. reflexivity.
      * intros u Hu. simpl. f_equal. apply (Hall u), Hu.
    + exists 1%nat. split; [simpl; lia|]. simpl. split.
      * rewrite Hsp. destruct ports; reflexivity.
      * discriminate.
Qed.


Lemma installDockerService_removes_temp config repoPath w w' :
  forallb plain_char repoPath = true ->
  startsWith_char repoPath 45 = false ->
  installDockerService config repoPath w = (Ok tt, w') ->
  files w' !! (repoPath ++ js "/.env.temp") = None.
Proof.
  intros Hrepo Hdash Hrun. unfold installDockerService in Hrun.
  after_statement in Hrun as w1.
  after_statement in Hrun as w2.
  cbv zeta in Hrun.
  after_statement in Hrun as w3.
  after_statement in Hrun as w4.
  after_statement in Hrun as w5.
  after_statement in Hrun as w6.
  after_statement in Hrun as w7.
  after_statement in Hrun as w8.
  after_statement in Hrun as w9.
  apply bind_Ok_inv in Hrun as (? & w10 & Hrm & Hrun).
  injection Hrun as <-.
  apply (runCommand_rm_f_Ok (repoPath ++ js "/" ++ js ".env.temp")) in Hrm.
  - rewrite Hrm. apply lookup_delete_eq.
  - apply path_word_under; [assumption | assumption | reflexivity].
Qed.

(** X9.  After a run of [installDockerService] or of
    [installDockerComposeService] that returns normally, on a repository
    path of plain characters, there is no [.env.temp] in the repository,
    whatever the configuration and whichever branch was taken. *)
Theorem successful_install_removes_temp (config : ConfigValue)
  (repoPath : jsstring) (w w' : World) :
  forallb plain_char repoPath = true ->
  startsWith_char repoPath 45 = false ->
  installDockerService config repoPath w = (Ok tt, w')
  \/ installDockerComposeService config repoPath w = (Ok tt, w') ->
  files w' !! (repoPath ++ js "/.env.temp") = None.
Proof.
  intros Hrepo Hdash [Hrun|Hrun].
  - eapply installDockerService_removes_temp; eassumption.
  - unfold installDockerComposeService in Hrun.
    after_statement in Hrun as w1.
    after_statement in Hrun as w2.
    cbv zeta in Hrun.
    after_statement in Hrun as w3.
    apply bind_Ok_inv in Hrun as (s & w4 & _ & Hrun).
    destruct (hasDockerCompose s).
    + after_statement in Hrun as w5.
      after_statement in Hrun as w6.
      after_statement in Hrun as w7.
      after_statement in Hrun as w8.
      after_statement in Hrun as w9.
      after_statement in Hrun as w10.
      apply bind_Ok_inv in Hrun as (? & w11 & Hrm & Hrun).
      injection Hrun as <-.
      apply (runCommand_rm_f_Ok (repoPath ++ js "/" ++ js ".env.temp")) in Hrm.
      * rewrite Hrm. apply lookup_delete_eq.
      * apply path_word_under; [assumption | assumption | reflexivity].
    + destruct (hasDockerfile s); [|discriminate Hrun].
      after_statement in Hrun as w5.
      eapply installDockerService_removes_temp; eassumption.
Qed.


End Installer.

(** ** The orchestrator *)

Section Orchestration.
Context `{Platform}.

Lemma runCommand_Ok_outcome command w v w' :
  runCommand command w = (Ok v, w') ->
  child_outcome command w = Exited (Some 0%Z)
  /\ spawned w' = spawned w ++ [command].
Proof.
  intros Hrun. destruct (runCommand_run command w) as (w1 & Hrun1 & Hsp & _).
  rewrite Hrun in Hrun1. injection Hrun1 as Hres <-.
  split; [|exact Hsp]. symmetry in Hres. apply settle_Ok in Hres as [Hout _].
  exact Hout.
Qed.

(** X11.  In a run of [installDockerService] that returns normally, with
    a non-empty example-env name: the example is copied over the working
    [.env], the merge of the root env with it succeeds, and [docker build]
    is spawned, and exits with code 0, in a world whose working [.env]
    holds exactly the output of that merge. *)
Theorem build_runs_on_merged_env (c : SolutionConfig)
  (example repoPath : jsstring) (w w' : World) :
  envFile c = Some example -> example <> [] ->
  forallb plain_char repoPath = true ->
  startsWith_char repoPath 45 = false ->
  forallb plain_char example = true ->
  installDockerService (ConfigObj c) repoPath w = (Ok tt, w') ->
  exists original atMerge mergedVars atBuild,
    files w !! (repoPath ++ js "/" ++ example) = Some original
    /\ files atMerge = <[repoPath ++ js "/.env" := original]> (files w)
    /\ fst (mergeEnvironmentFiles rootEnvPath (repoPath ++ js "/.env")
              (repoPath ++ js "/.env.temp") atMerge) = Ok mergedVars
    /\ files atBuild !! (repoPath ++ js "/.env") = Some (env_content mergedVars)
    /\ child_outcome (build_command c repoPath) atBuild = Exited (Some 0%Z).
Proof.
  intros Henv Hne Hrepo Hdash Hexample Hrun.
  unfold installDockerService, cfg_envFile, cfg_imageName, field in Hrun.
  rewrite Henv in Hrun. cbn [opt_string tpl truthy] in Hrun.
  assert (is_empty example = false) as Hempty
    by (destruct example; [destruct Hne; reflexivity | reflexivity]).
  rewrite Hempty in Hrun. cbn [negb] in Hrun.
  apply bind_Ok_inv in Hrun as (? & w1 & Hlog & Hrun).
  rewrite console_log_run in Hlog. injection Hlog as _ <-.
  apply bind_Ok_inv in Hrun as (? & w2 & Hcopy & Hrun).
  apply bind_Ok_inv in Hcopy as (? & w2' & Hcopy & Hret).
  injection Hret as _ <-.
  cbv zeta in Hrun.
  apply bind_Ok_inv in Hrun as (mergedVars & w3 & Hmerge & Hrun).
  apply bind_Ok_inv in Hrun as (? & w4 & Hplace & Hrun).
  apply bind_Ok_inv in Hrun as (? & w5 & Hlog & Hrun).
  rewrite console_log_run in Hlog. injection Hlog as _ <-.
  apply bind_Ok_inv in Hrun as (? & w6 & Hbuild & _).
  assert (Hexample_word : path_word (repoPath ++ js "/" ++ example) = true)
    by (apply path_word_under; assumption).
  assert (Henv_word : path_word (repoPath ++ js "/" ++ js ".env") = true)
    by (apply path_word_under; [assumption | assumption | reflexivity]).
  assert (Htemp_word : path_word (repoPath ++ js "/" ++ js ".env.temp") = true)
    by (apply path_word_under; [assumption | assumption | reflexivity]).
  replace (js "cp " ++ repoPath ++ js "/" ++ example ++ js " "
           ++ repoPath ++ js "/.env")
    with (js "cp " ++ (repoPath ++ js "/" ++ example) ++ js " "
          ++ (repoPath ++ js "/" ++ js ".env")) in Hcopy
    by (rewrite <- !app_assoc; reflexivity).
  apply runCommand_cp_Ok in Hcopy as (original & Hsource & _ & Hfiles2);
    [| assumption | assumption].
  simpl in Hsource, Hfiles2.
  destruct (mergeEnvironmentFiles_cases rootEnvPath (repoPath ++ js "/.env")
              (repoPath ++ js "/.env.temp") w2') as [[m Hm]|[e He]];
    [|rewrite He in Hmerge; discriminate Hmerge].
  rewrite Hm in Hmerge. injection Hmerge as -> <-.
  apply (runCommand_cp_Ok (repoPath ++ js "/" ++ js ".env.temp")
           (repoPath ++ js "/" ++ js ".env")) in Hplace
    as (merged & Hmerged & _ & Hfiles4); [| assumption | assumption].
  simpl in Hmerged, Hfiles4.
  change (js "/" ++ js ".env.temp") with (js "/.env.temp") in Hmerged.
  rewrite lookup_insert_eq in Hmerged. injection Hmerged as <-.
  apply runCommand_Ok_outcome in Hbuild as [Hbuild _].
  exists original, w2', mergedVars. eexists.
  split; [exact Hsource|]. split; [exact Hfiles2|].
  split; [rewrite Hm; reflexivity|].
  split; [|exact Hbuild].
  simpl. rewrite Hfiles4. apply lookup_insert_eq.
Qed.

(** X12.  Whenever [installWithProgress] throws, the last lines on the
    console are "Installation failed: " with the message of the error,
    followed by what [handleError] prints for that same error. *)
Theorem failure_is_reported (req : Request) (w w' : World) (e : Error) :
  installWithProgress req w = (Throw e, w') ->
  exists printed,
    console w'
    = printed
      ++ [(Stderr, [LStr ([10060] ++ js " Installation failed: " ++ err_message e)])]
      ++ handleError e (js "Error - solutionInstallWithProgress").
Proof.
  unfold installWithProgress. rewrite try_catch_unfold.
  match goal with |- context [match ?b w with _ => _ end] =>
    destruct (b w) as [[r|e0] w1] end; [discriminate|].
  intros [= <- <-]. exists (console w1). simpl. rewrite <- app_assoc. reflexivity.
Qed.

Lemma installWithProgress_Ok_inv (req : Request) (w w' : World) (r : DeploymentResult) :
  installWithProgress req w = (Ok r, w') ->
  exists solutionType c rest,
    req_solutionType req = Some solutionType
    /\ SOLUTION_CONFIGS !! solutionType = Some c
    /\ (installType c = js "docker" \/ installType c = js "docker-compose")
    /\ r = {| success := true; result_port := VNumber (port c);
              result_solutionType := solutionType |}
    /\ spawned w'
       = spawned w ++ remove_checkout_command c :: clone_command c :: rest.
Proof.
  unfold installWithProgress. rewrite try_catch_unfold.
  match goal with |- context [match ?b w with _ => _ end] =>
    destruct (b w) as [[r0|e0] w1] eqn:Hbody end.
  2:{ intros Hthrow. discriminate Hthrow. }
  intros [= <- <-].
  destruct (req_solutionType req) as [solutionType|]; [|discriminate Hbody].
  destruct (is_empty solutionType); [discriminate Hbody|].
  unfold registry_get in Hbody.
  destruct (SOLUTION_CONFIGS !! solutionType) as [c|] eqn:Hreg.
  - apply bind_Ok_inv in Hbody as (? & w2 & Hlog & Hbody).
    rewrite console_log_run in Hlog. injection Hlog as _ <-.
    cbv zeta in Hbody.
    apply bind_Ok_inv in Hbody as (? & w3 & Hlog & Hbody).
    rewrite console_log_run in Hlog. injection Hlog as _ <-.
    apply bind_Ok_inv in Hbody as (? & w4 & Hrm & Hbody).
    apply runCommand_Ok_outcome in Hrm as [_ Hrm].
    apply bind_Ok_inv in Hbody as (? & w5 & Hlog & Hbody).
    rewrite console_log_run in Hlog. injection Hlog as _ <-.
    apply bind_Ok_inv in Hbody as (? & w6 & Hclone & Hbody).
    apply runCommand_Ok_outcome in Hclone as [_ Hclone].
    apply bind_Ok_inv in Hbody as (? & w7 & Hclean & Hbody).
    destruct (appends_cleanup (ConfigObj c) w6) as [more1 Hmore1].
    rewrite Hclean in Hmore1.
    apply bind_Ok_inv in Hbody as (? & w8 & Hinstall & Hbody).
    apply bind_Ok_inv in Hbody as (? & w9 & Hlog & Hbody).
    rewrite console_log_run in Hlog. injection Hlog as _ <-.
    injection Hbody as <- <-.
    exists solutionType, c.
    assert (Hkind : (installType c = js "docker" \/ installType c = js "docker-compose")
                    /\ exists more2, spawned w8 = spawned w7 ++ more2).
    { unfold cfg_installType, field in Hinstall.
      case_bool_decide as Hdocker.
      - split; [left; congruence|].
        destruct (appends_installDockerService (ConfigObj c)
                    (js "/workspace/" ++ tpl (cfg_repoName (ConfigObj c))) w7)
          as [more2 Hmore2].
        rewrite Hinstall in Hmore2. exists more2. exact Hmore2.
      - case_bool_decide as Hcompose; [|discriminate Hinstall].
        split; [right; congruence|].
        destruct (appends_installDockerComposeService (ConfigObj c)
                    (js "/workspace/" ++ tpl (cfg_repoName (ConfigObj c))) w7)
          as [more2 Hmore2].
        rewrite Hinstall in Hmore2. exists more2. exact Hmore2. }
    destruct Hkind as [Hkind [more2 Hmore2]].
    exists (more1 ++ more2).
    split; [reflexivity|]. split; [exact Hreg|]. split; [exact Hkind|].
    split; [reflexivity|].
    cbn [snd] in Hmore1. cbn [spawned] in Hrm, Hclone |- *.
    rewrite Hmore2, Hmore1, Hclone, Hrm.
    rewrite <- !app_assoc. reflexivity.
  - destruct (bool_decide (solutionType ∈ object_prototype_members));
      [|discriminate Hbody].
    after_statement in Hbody as w2.
    cbv zeta in Hbody.
    after_statement in Hbody as w3.
    after_statement in Hbody as w4.
    after_statement in Hbody as w5.
    after_statement in Hbody as w6.
    after_statement in Hbody as w7.
    apply bind_Ok_inv in Hbody as (? & w8 & Hinstall & _).
    discriminate Hinstall.
Qed.

(** X13.  When [installWithProgress] returns, the requested solution
    type is an own key of the registry (never a name inherited from
    [Object.prototype]), the install type of its entry is [docker] or
    [docker-compose], the result is [success: true] with the port of the
    entry and the requested type, and the first two commands spawned were
    the removal of the checkout path and the clone into it. *)
Theorem success_inversion (req : Request) (w w' : World) (r : DeploymentResult) :
  installWithProgress req w = (Ok r, w') ->
  exists solutionType c rest,
    req_solutionType req = Some solutionType
    /\ SOLUTION_CONFIGS !! solutionType = Some c
    /\ (installType c = js "docker" \/ installType c = js "docker-compose")
    /\ r = {| success := true; result_port := VNumber (port c);
              result_solutionType := solutionType |}
    /\ spawned w'
       = spawned w ++ remove_checkout_command c :: clone_command c :: rest.
Proof. apply installWithProgress_Ok_inv. Qed.

(** X14.  For a registry entry whose install type is neither [docker] nor
    [docker-compose] the run always throws, and the removal of the checkout
    path has been spawned before it does. *)
Theorem unsupported_type_fails_after_removal (solutionType : jsstring)
  (c : SolutionConfig) (w : World) :
  solutionType <> [] ->
  SOLUTION_CONFIGS !! solutionType = Some c ->
  installType c <> js "docker" -> installType c <> js "docker-compose" ->
  exists e w' rest,
    installWithProgress {| body := Some (Some solutionType) |} w = (Throw e, w')
    /\ spawned w' = spawned w ++ remove_checkout_command c :: rest.
Proof.
  intros Hne Hreg Hdocker Hcompose.
  destruct (installWithProgress {| body := Some (Some solutionType) |} w)
    as [[r|e] w'] eqn:Hrun.
  - apply installWithProgress_Ok_inv in Hrun
      as (st & c' & rest & Hst & Hreg' & Hkind & _).
    simpl in Hst. injection Hst as <-. rewrite Hreg in Hreg'.
    injection Hreg' as <-. destruct Hkind; contradiction.
  - exists e, w'.
    unfold installWithProgress in Hrun. rewrite try_catch_unfold in Hrun.
    cbn [req_solutionType body] in Hrun.
    assert (is_empty solutionType = false) as Hempty
      by (destruct solutionType; [destruct Hne; reflexivity | reflexivity]).
    rewrite Hempty in Hrun. unfold registry_get in Hrun. rewrite Hreg in Hrun.
    rewrite bind_unfold, console_log_run in Hrun. cbv zeta in Hrun.
    rewrite bind_unfold, console_log_run in Hrun.
    rewrite bind_unfold in Hrun.
    change (js "rm -rf " ++ js "/workspace/" ++ tpl (cfg_repoName (ConfigObj c)))
      with (remove_checkout_command c) in Hrun.
    match type of Hrun with
    | context [runCommand (remove_checkout_command c) ?w0] =>
        destruct (runCommand_run (remove_checkout_command c) w0)
          as (w2 & Hrm & Hsp & _); rewrite Hrm in Hrun
    end.
    simpl in Hsp.
    destruct (settle (remove_checkout_command c) _) as [v|e1].
    + match type of Hrun with
      | context [(?rest_of_body) w2] =>
          match rest_of_body with
          | _ ≫= _ =>
              assert (Hgrow : appends_commands rest_of_body);
              [| destruct (Hgrow w2) as [more Hmore];
                 destruct (rest_of_body w2) as [[r1|e1] w3] ]
          end
      end.
      * appends_all.
      * discriminate Hrun.
      * cbn [snd] in Hmore. injection Hrun as <- <-. exists more.
        split; [reflexivity|]. cbn [spawned].
        rewrite Hmore, Hsp, <- app_assoc. reflexivity.
    + injection Hrun as <- <-. exists []. split; [reflexivity | exact Hsp].
Qed.

End Orchestration.

(** ** The Ollama settings hook *)

Section OllamaHook.
Context {Model : Type} `{HookClosure Model}.

(** X15.  Whatever the payload and whatever the API client does (answer,
    answer with something that cannot be spread, or fail),
    [ollamaHealthCheck] calls [setLoading(true)] first and
    [setLoading(false)] last, and never in between. *)
Theorem loading_is_reset (payload : option OllamaPayload) :
  exists between,
    snd (ollamaHealthCheck payload)
    = SetLoading true :: between ++ [SetLoading false]
    /\ forallb (fun c => negb (is_SetLoading c)) between = true.
Proof.
  unfold ollamaHealthCheck, health_check_try.
  destruct (commonApi (health_request payload)) as [response|e].
  - destruct (response_data response); eexists; split; reflexivity.
  - eexists. split; reflexivity.
Qed.

(** X16.  [ollamaHealthCheck] dispatches at most once: the current list
    followed by the models of the response when [response.data] is an
    array, and nothing when it is [true] or when the request fails; a
    failure of the API client reaches the caller unchanged; and the base
    URL sent is never empty, the default standing in for a missing or
    empty one. *)
Theorem dispatch_follows_response (payload : option OllamaPayload) :
  filter (fun c => is_Dispatch c = true) (snd (ollamaHealthCheck payload))
  = match commonApi (health_request payload) with
    | Ok response =>
        match response_data response with
        | DataModels models =>
            [DispatchAssignModelList (assignmodalList ++ models)]
        | _ => []
        end
    | Throw _ => []
    end
  /\ (forall e, commonApi (health_request payload) = Throw e ->
                fst (ollamaHealthCheck payload) = Throw e)
  /\ request_baseUrl (health_request payload) <> [].
Proof.
  unfold ollamaHealthCheck, health_check_try.
  split; [|split].
  - destruct (commonApi (health_request payload)) as [response|e];
      [destruct (response_data response)|]; reflexivity.
  - intros e ->. reflexivity.
  - unfold health_request, health_baseUrl. simpl.
    destruct payload as [[[url|] key]|]; simpl; try discriminate.
    destruct url; simpl; discriminate.
Qed.
End OllamaHook.

(** ** The further properties at concrete inputs *)

Lemma parse_appended_assignment_witness :
  own_get (parse_env (js "A=1" ++ ch_newline :: js " B " ++ ch_equals :: js " x=y "))
          (js "B")
  = Some (js "x=y")
  /\ own_get (parse_env (js "A=1" ++ ch_newline :: js " B " ++ ch_equals :: js " x=y "))
             (js "A")
     = Some (js "1").
Proof.
  destruct (parse_appended_assignment (js "A=1") (js " B ") (js " x=y "))
    as (_ & _ & Hset).
  - intros Hin. absurd_member Hin.
  - intros Hin. absurd_member Hin.
  - intros Hin. absurd_member Hin.
  - split.
    + rewrite Hset; [reflexivity | reflexivity |].
      intros Heq. vm_compute in Heq. discriminate Heq.
    + rewrite Hset; [reflexivity | reflexivity |].
      intros Heq. vm_compute in Heq. discriminate Heq.
Defined.

Lemma parse_ignores_other_lines_witness :
  parse_env (join [ch_newline] [js "# defaults"; js "A=1"; []; js "junk"])
  = [(js "A", js "1")].
Proof.
  rewrite parse_ignores_other_lines.
  - vm_compute. reflexivity.
  - repeat constructor; intros Hin; absurd_member Hin.
Defined.

Lemma parsed_variables_invariant_witness :
  (js "A", js "1") ∈ parse_env (js " A = 1 ")
  /\ trim (js "A") = js "A" /\ (ch_equals ∉ js "A").
Proof.
  assert (Hin : (js "A", js "1") ∈ parse_env (js " A = 1 "))
    by (vm_compute; left).
  split; [exact Hin|].
  destruct (parsed_variables_invariant (js " A = 1 ")) as [_ Hall].
  destruct (Hall (js "A") (js "1") Hin) as (_ & Hk & _ & Heq & _).
  split; [exact Hk | exact Heq].
Defined.

Lemma merge_output_reads_back_witness :
  has_own (env_at checkout_world (js "/workspace/.env")) (js "hasOwnProperty")
  = false
  /\ exists mergedVars w',
      mergeEnvironmentFiles (js "/workspace/.env")
        (js "/workspace/demo/.env.example") (js "/workspace/demo/.env.temp")
        checkout_world = (Ok mergedVars, w')
      /\ env_at w' (js "/workspace/demo/.env.temp") = Object_entries mergedVars.
Proof.
  split; [reflexivity|].
  destruct (merge_output_reads_back (js "/workspace/.env")
              (js "/workspace/demo/.env.example")
              (js "/workspace/demo/.env.temp") checkout_world)
    as (mergedVars & w' & Hrun & Hread & _); [reflexivity|].
  exists mergedVars, w'. split; [exact Hrun | exact Hread].
Defined.


Lemma compose_probe_never_throws_witness :
  exists available w',
    isDockerComposeAvailable (H := failing_platform) empty_world
    = (Ok available, w')
    /\ available = false
    /\ spawned w' = [js "docker-compose --version"; js "docker compose version"].
Proof.
  destruct (compose_probe_never_throws (H := failing_platform) empty_world)
    as (available & w' & Hrun & _ & Hfallback).
  destruct Hfallback as [Hspawned Havailable].
  - intros Heq. vm_compute in Heq. discriminate Heq.
  - exists available, w'. split; [exact Hrun|]. split; [|exact Hspawned].
    destruct available; [|reflexivity].
    destruct Havailable as [Hyes _]. specialize (Hyes eq_refl).
    vm_compute in Hyes. discriminate Hyes.
Defined.

Lemma compose_install_never_throws_witness :
  exists w',
    installDockerCompose (H := quiet_platform) empty_world = (Ok tt, w')
    /\ last (console w')
       = Some (Stdout, [LStr ([9989] ++ js " Docker Compose installed successfully")]).
Proof.
  destruct (compose_install_never_throws (H := quiet_platform) empty_world)
    as (w' & Hrun & _ & Hdone & _).
  exists w'. split; [exact Hrun|]. apply Hdone. reflexivity.
Defined.


Lemma successful_install_removes_temp_witness :
  files (snd (installDockerService (H := quiet_platform)
                (ConfigObj sample_config) (js "/workspace/demo") checkout_world))
    !! (js "/workspace/demo" ++ js "/.env.temp") = None.
Proof.
  apply (successful_install_removes_temp (H := quiet_platform)
           (ConfigObj sample_config) (js "/workspace/demo") checkout_world).
  - reflexivity.
  - reflexivity.
  - left. vm_compute. reflexivity.
Defined.


Lemma build_runs_on_merged_env_witness :
  exists original atMerge mergedVars atBuild,
    files checkout_world !! (js "/workspace/demo" ++ js "/" ++ js ".env.example")
    = Some original
    /\ files atMerge
       = <[js "/workspace/demo" ++ js "/.env" := original]> (files checkout_world)
    /\ fst (mergeEnvironmentFiles rootEnvPath (js "/workspace/demo" ++ js "/.env")
              (js "/workspace/demo" ++ js "/.env.temp") atMerge) = Ok mergedVars
    /\ files atBuild !! (js "/workspace/demo" ++ js "/.env")
       = Some (env_content mergedVars)
    /\ child_outcome (H := quiet_platform)
         (build_command sample_config (js "/workspace/demo")) atBuild
       = Exited (Some 0%Z).
Proof.
  apply (build_runs_on_merged_env (H := quiet_platform) sample_config
           (js ".env.example") (js "/workspace/demo") checkout_world
           (snd (installDockerService (H := quiet_platform)
                   (ConfigObj sample_config) (js "/workspace/demo")
                   checkout_world))).
  - reflexivity.
  - discriminate.
  - reflexivity.
  - reflexivity.
  - reflexivity.
  - vm_compute. reflexivity.
Defined.

Lemma failure_is_reported_witness :
  exists printed,
    console (snd (installWithProgress (H := failing_platform)
                    {| body := Some (Some (js "demo")) |} empty_world))
    = printed
      ++ [(Stderr, [LStr ([10060] ++ js " Installation failed: "
                          ++ js "Command failed: rm -rf /workspace/demo")])]
      ++ handleError (Platform := failing_platform)
           (new_Error (js "Command failed: rm -rf /workspace/demo"))
           (js "Error - solutionInstallWithProgress").
Proof.
  apply (failure_is_reported (H := failing_platform)
           {| body := Some (Some (js "demo")) |} empty_world
           (snd (installWithProgress (H := failing_platform)
                   {| body := Some (Some (js "demo")) |} empty_world))
           (new_Error (js "Command failed: rm -rf /workspace/demo"))).
  vm_compute. reflexivity.
Defined.

Lemma success_inversion_witness :
  exists solutionType c rest,
    SOLUTION_CONFIGS (Platform := quiet_platform) !! solutionType = Some c
    /\ spawned (snd (installWithProgress (H := quiet_platform)
                       {| body := Some (Some (js "demo")) |} checkout_world))
       = spawned checkout_world
         ++ remove_checkout_command c :: clone_command c :: rest.
Proof.
  destruct (success_inversion (H := quiet_platform)
              {| body := Some (Some (js "demo")) |} checkout_world
              (snd (installWithProgress (H := quiet_platform)
                      {| body := Some (Some (js "demo")) |} checkout_world))
              {| success := true; result_port := VNumber 3000;
                 result_solutionType := js "demo" |})
    as (solutionType & c & rest & _ & Hreg & _ & _ & Hspawned).
  - vm_compute. reflexivity.
  - exists solutionType, c, rest. split; [exact Hreg | exact Hspawned].
Defined.

Lemma unsupported_type_fails_after_removal_witness :
  exists e w' rest,
    installWithProgress (H := helm_platform)
      {| body := Some (Some (js "chart")) |} empty_world = (Throw e, w')
    /\ spawned w' = spawned empty_world ++ remove_checkout_command helm_config :: rest.
Proof.
  apply (unsupported_type_fails_after_removal (H := helm_platform) (js "chart")
           helm_config empty_world).
  - discriminate.
  - reflexivity.
  - discriminate.
  - discriminate.
Defined.

Lemma dispatch_follows_response_witness :
  fst (ollamaHealthCheck (H := failing_closure)
         (Some {| payload_baseUrl := Some []; payload_key := None |}))
  = Throw (new_Error (js "Network Error")).
Proof.
  destruct (dispatch_follows_response (H := failing_closure)
              (Some {| payload_baseUrl := Some []; payload_key := None |}))
    as (_ & Hfail & _).
  apply Hfail. reflexivity.
Defined.

(** The answering API: the spinner is switched on and off around the
    request, the message is shown, and the list is extended. *)
Example health_check_answered :
  ollamaHealthCheck (H := answering_closure) None
  = (Ok tt,
     [SetLoading true;
      CommonApi {| request_baseUrl := js "http://localhost:11434";
                   request_apiKey := None;
                   request_title := VString (js "Ollama");
                   request_code := VString (js "OLLAMA");
                   request_id := VNumber 7 |};
      Toast (VString (js "Connected"));
      DispatchAssignModelList [js "llama3"; js "mistral"; js "phi3"];
      SetLoading false]).
Proof. reflexivity. Qed.
